(** * Batch application of custom properties to the repositories of an
      organization: a shallow embedding of [set_custom_properties.py]

    The script is sequential glue around three remote operations (resolve
    the organization, list its repositories, PATCH one property on one
    repository), a command-line parser and a logger.  The embedding keeps
    that shape:

    - Python [str] values are [string]s whose characters are read as the
      code points below 256; [strip], [lower], [in] and [split('=', 1)]
      are written out on them;
    - the property [dict] is an association list in insertion order, with
      Python's assignment (an existing key keeps its position);
    - the remote side is an environment [Env] of replies; the program
      threads a [State] holding the log and the trace of remote calls;
    - [sys.exit] and exceptions that no handler catches are outcomes of
      the small monad [M]. *)

From Stdlib Require Import String Ascii List ZArith NArith Bool Lia.
From Stdlib Require Import Permutation.
Import ListNotations.

Local Open Scope string_scope.
Local Open Scope list_scope.

(** ** Python strings *)

Module PyStr.

(** [str.isspace] on one character: the code points below 256 that
    Python treats as whitespace are 9-13, 28-32, 0x85 and 0xA0. *)
Definition isspace (c : ascii) : bool :=
  let n := N_of_ascii c in
  (((9 <=? n) && (n <=? 13)) || ((28 <=? n) && (n <=? 32))
   || (n =? 133) || (n =? 160))%N.

(** [str.lower] on one character: A-Z and the capital letters
    0xC0-0xDE (0xD7, the multiplication sign, apart) move up by 32. *)
Definition lower_char (c : ascii) : ascii :=
  let n := N_of_ascii c in
  if (((65 <=? n) && (n <=? 90))
      || ((192 <=? n) && (n <=? 222) && negb (n =? 215)))%N
  then ascii_of_N (n + 32) else c.

Fixpoint lower (s : string) : string :=
  match s with
  | EmptyString => EmptyString
  | String c t => String (lower_char c) (lower t)
  end.

(** [s.lstrip()], [s.rstrip()] and [s.strip()] without argument. *)
Fixpoint lstrip (s : string) : string :=
  match s with
  | EmptyString => EmptyString
  | String c t => if isspace c then lstrip t else s
  end.

Fixpoint rstrip (s : string) : string :=
  match s with
  | EmptyString => EmptyString
  | String c t =>
      match rstrip t with
      | EmptyString => if isspace c then EmptyString else String c EmptyString
      | t' => String c t'
      end
  end.

Definition strip (s : string) : string := rstrip (lstrip s).

(** [needle in hay]: [needle] occurs in [hay] as a contiguous run. *)
Fixpoint contains (hay needle : string) : bool :=
  prefix needle hay
  || match hay with
     | EmptyString => false
     | String _ t => contains t needle
     end.

(** [c in s] for a single character. *)
Fixpoint has_char (c : ascii) (s : string) : bool :=
  match s with
  | EmptyString => false
  | String d t => Ascii.eqb c d || has_char c t
  end.

(** [s.split(sep, 1)] for a one-character separator: the list has one
    element when [sep] does not occur and two otherwise, the text before
    the first [sep] and the text after it. *)
Fixpoint split1 (sep : ascii) (s : string) : list string :=
  match s with
  | EmptyString => [EmptyString]
  | String c t =>
      if Ascii.eqb c sep then [EmptyString; t]
      else match split1 sep t with
           | a :: rest => String c a :: rest
           | [] => []
           end
  end.

(** Truth value of a string: [not s] holds of the empty string only. *)
Definition truthy (s : string) : bool :=
  match s with EmptyString => false | _ => true end.

Fixpoint all_space (s : string) : bool :=
  match s with
  | EmptyString => true
  | String c t => isspace c && all_space t
  end.

Definition starts_with_space (s : string) : bool :=
  match s with
  | EmptyString => false
  | String c _ => isspace c
  end.

Fixpoint ends_with_space (s : string) : bool :=
  match s with
  | EmptyString => false
  | String c EmptyString => isspace c
  | String _ t => ends_with_space t
  end.

End PyStr.

(** ** The property dictionary *)

Module Dict.

(** A [Dict[str, str]]: the items in insertion order. *)
Definition t := list (string * string).

Definition empty : t := [].

(** [d[k] = v]: an existing key keeps its place and takes the new value,
    a new key goes last. *)
Fixpoint set (k v : string) (d : t) : t :=
  match d with
  | [] => [(k, v)]
  | (k', v') :: rest =>
      if String.eqb k k' then (k, v) :: rest else (k', v') :: set k v rest
  end.

(** [d.get(k)]. *)
Fixpoint get (k : string) (d : t) : option string :=
  match d with
  | [] => None
  | (k', v') :: rest => if String.eqb k k' then Some v' else get k rest
  end.

(** [d.items()]. *)
Definition items (d : t) : list (string * string) := d.

Definition keys (d : t) : list string := map fst d.

(** Truth value of a dict: [not d] holds of the empty dict only. *)
Definition truthy (d : t) : bool :=
  match d with [] => false | _ => true end.

End Dict.

(** ** Values exchanged with the remote side *)

Module Repository.

(** What the script reads of a PyGithub [Repository]. *)
Record t := { name : string; full_name : string }.

End Repository.

(** The handle [Github.get_organization] returns. *)
Record Organization := { login : string }.

(** One entry of the [properties] array of the PATCH body. *)
Record PropertyValue := { property_name : string; value : string }.

(** The arguments of [requests.patch(url, headers=..., json=..., timeout=...)]:
    [json_properties] is the list under the key ["properties"]. *)
Record PatchRequest := {
  url : string;
  headers : list (string * string);
  json_properties : list PropertyValue;
  timeout : Z
}.

(** What the script can read of a [requests.Response]. *)
Record Response := { status_code : Z; text : string }.

(** Exceptions, by the handler clauses the script tells apart.
    [GithubException] stands for the class and its subclasses (bad
    credentials come with status 401, an unknown object with 404);
    [ConnectionError] and [Timeout] are the classes of
    [requests.exceptions], [RequestException] any other subclass of it,
    and [PyException] any other subclass of [Exception].  The strings are
    the class name and [str(e)]. *)
Inductive exn :=
| GithubException (status : Z) (msg : string)
| HTTPError (response : Response)
| ConnectionError
| Timeout
| RequestException (cls : string)
| PyException (cls : string) (msg : string).

(** [type(e).__name__]. *)
Definition type_name (e : exn) : string :=
  match e with
  | GithubException _ _ => "GithubException"
  | HTTPError _ => "HTTPError"
  | ConnectionError => "ConnectionError"
  | Timeout => "Timeout"
  | RequestException cls => cls
  | PyException cls _ => cls
  end.

(** A remote call, as the trace records it. *)
Inductive NetCall :=
| GetOrganization (token org_name : string)
| GetRepos (org : Organization)
| Patch (req : PatchRequest).

(** What a call into a library does: it returns or it raises. *)
Inductive reply (A : Type) :=
| Returns (a : A)
| Raises (e : exn).
Arguments Returns {A} a.
Arguments Raises {A} e.

(** The world outside the script.  A reply may depend on the calls made
    before it, so the same request can succeed once and fail later.
    [json_file] is [json.load] of an opened path. *)
Record Env := {
  github_get_organization : list NetCall -> string -> string -> reply Organization;
  organization_get_repos : list NetCall -> Organization -> reply (list Repository.t);
  requests_patch : list NetCall -> PatchRequest -> reply Response;
  json_file : string -> reply Dict.t
}.

(** ** Logging *)

Inductive Level := INFO | ERROR.

(** The run counters, the dict [{"success": _, "failed": _, "skipped": _}]. *)
Record Results := { success : nat; failed : nat; skipped : nat }.

(** One constructor per message of the script, carrying the values its
    f-string interpolates. *)
Inductive Message :=
| ConnectedTo (org_name : string)
| ConnectFailed (org_name : string) (e : exn)
| FoundRepos (n : nat) (org_name : string)
| FetchFailed (e : exn)
| PropertySet (property_name property_value full_name : string)
| HttpFailure (full_name : string) (status_code : Z)
| ConnectionFailure (full_name : string)
| RequestTimeout (full_name : string)
| RequestError (full_name cls : string)
| UnexpectedError (full_name cls : string)
| FilteredTo (n : nat) (repo_filter : string)
| DryRunMode
| WouldSet (full_name : string)
| WouldSetItem (prop_name prop_value : string)
| LoadFailed (file_path : string) (e : exn)
| TokenRequired
| EmptyProperty
| InvalidFormat (prop : string)
| EmptyName (prop : string)
| NoProperties
| PropertiesToSet (properties : Dict.t)
| BlankLineAndRule
| Rule
| SummaryTitle
| WouldUpdate (n : nat)
| Updated (n : nat)
| FailedToUpdate (n : nat).

(** ** Program state and the monad of the script *)

(** [log] and [calls] grow at the end; [debug] is the logger level
    ([setLevel(DEBUG)]; the level is INFO otherwise, and both let every
    message of the script through). *)
Record State := {
  log : list (Level * Message);
  calls : list NetCall;
  debug : bool
}.

Definition initial : State := {| log := []; calls := []; debug := false |}.

(** How a computation ends: with a value, by [sys.exit(code)], or with an
    exception on its way up. *)
Inductive outcome (A : Type) :=
| Ret (a : A)
| SysExit (code : Z)
| Raise (e : exn).
Arguments Ret {A} a.
Arguments SysExit {A} code.
Arguments Raise {A} e.

Definition M (A : Type) : Type := State -> outcome A * State.

Definition ret {A} (a : A) : M A := fun st => (Ret a, st).

Definition bind {A B} (m : M A) (k : A -> M B) : M B :=
  fun st =>
    match m st with
    | (Ret a, st') => k a st'
    | (SysExit c, st') => (SysExit c, st')
    | (Raise e, st') => (Raise e, st')
    end.

Declare Scope py_scope.
Delimit Scope py_scope with py.
Notation "x <- m ;; k" := (bind m (fun x => k))
  (at level 61, m at next level, right associativity) : py_scope.
Notation "m ;; k" := (bind m (fun _ => k))
  (at level 61, right associativity) : py_scope.
Local Open Scope py_scope.

Definition sys_exit {A} (code : Z) : M A := fun st => (SysExit code, st).

Definition raise {A} (e : exn) : M A := fun st => (Raise e, st).

(** [try: body except ...]: [handler e] is the body of the first clause
    that matches [e], or [None] when no clause does.  [sys.exit] is not an
    [Exception] and passes through. *)
Definition try_except {A} (body : M A) (handler : exn -> option (M A)) : M A :=
  fun st =>
    match body st with
    | (Raise e, st') =>
        match handler e with
        | Some h => h st'
        | None => (Raise e, st')
        end
    | r => r
    end.

Definition emit (l : Level) (m : Message) : M unit :=
  fun st =>
    (Ret tt, {| log := log st ++ [(l, m)]; calls := calls st; debug := debug st |}).

Definition logger_info : Message -> M unit := emit INFO.
Definition logger_error : Message -> M unit := emit ERROR.

Definition logger_setLevel_DEBUG : M unit :=
  fun st => (Ret tt, {| log := log st; calls := calls st; debug := true |}).

(** A remote call: it goes on the trace, and the environment answers from
    the calls made before it. *)
Definition remote {A} (c : NetCall) (answer : list NetCall -> reply A) : M A :=
  fun st =>
    let st' := {| log := log st; calls := calls st ++ [c]; debug := debug st |} in
    match answer (calls st) with
    | Returns a => (Ret a, st')
    | Raises e => (Raise e, st')
    end.

(** The exit status of the process: 0 when [main] returns, the code of
    [sys.exit], and 1 when an exception reaches the top. *)
Definition exit_status {A} (o : outcome A) : Z :=
  match o with
  | Ret _ => 0
  | SysExit c => c
  | Raise _ => 1
  end.

(** ** The script *)

(** The attributes of a [CustomPropertySetter]; [github_auth] is the token
    the [Github] client was built with. *)
Record CustomPropertySetter := {
  github_auth : string;
  token : string;
  org_name : string;
  org : option Organization
}.

(** The parsed command line ([argparse] has run): [arg_token] already has
    the value of [GITHUB_TOKEN] as its default, [arg_properties] is [None]
    when no [--property] was given. *)
Record Args := {
  arg_token : option string;
  arg_org : string;
  arg_properties : option (list string);
  arg_properties_file : option string;
  arg_dry_run : bool;
  arg_filter : option string;
  arg_verbose : bool
}.

(** Truth value of an optional string: [None] and [""] are false. *)
Definition opt_truthy (o : option string) : bool :=
  match o with
  | Some s => PyStr.truthy s
  | None => false
  end.

(** The token [main] builds the setter with; [main] has checked by then
    that there is one. *)
Definition token_of (args : Args) : string :=
  match arg_token args with Some t => t | None => ""%string end.

(** [Response.raise_for_status]: an [HTTPError] for a status from 400 to
    599, nothing otherwise. *)
Definition raise_for_status (response : Response) : M unit :=
  if ((400 <=? status_code response) && (status_code response <? 600))%Z
  then raise (HTTPError response)
  else ret tt.

(** The request [set_custom_property] builds. *)
Definition patch_request (self : CustomPropertySetter) (repo : Repository.t)
  (property_name property_value : string) : PatchRequest :=
  {| url := ("https://api.github.com/repos/" ++ Repository.full_name repo
             ++ "/properties/values")%string;
     headers := [("Accept", "application/vnd.github+json");
                 ("Authorization", ("Bearer " ++ token self)%string);
                 ("X-GitHub-Api-Version", "2022-11-28")];
     json_properties := [{| property_name := property_name;
                            value := property_value |}];
     timeout := 30 |}.

(** The filter of [set_properties_on_all_repos]:
    [[r for r in repos if repo_filter.lower() in r.name.lower()]]. *)
Definition matching (repo_filter : string) (repos : list Repository.t)
  : list Repository.t :=
  filter (fun r => PyStr.contains (PyStr.lower (Repository.name r))
                                  (PyStr.lower repo_filter)) repos.

Section Script.

Variable env : Env.

(** [CustomPropertySetter.__init__]: building the client sends nothing. *)
Definition init (token org_name : string) : CustomPropertySetter :=
  {| github_auth := token; token := token; org_name := org_name; org := None |}.

(** [validate_connection]: the result and the object with [self.org] set. *)
Definition validate_connection (self : CustomPropertySetter)
  : M (bool * CustomPropertySetter) :=
  try_except
    (o <- remote (GetOrganization (github_auth self) (org_name self))
            (fun h => github_get_organization env h (github_auth self) (org_name self)) ;;
     logger_info (ConnectedTo (org_name self)) ;;
     ret (true, {| github_auth := github_auth self; token := token self;
                   org_name := org_name self; org := Some o |}))
    (fun e =>
       match e with
       | GithubException _ _ =>
           Some (logger_error (ConnectFailed (org_name self) e) ;;
                 ret (false, self))
       | _ => None
       end).

(** [self.org.get_repos()] read to the end: on [None] the attribute
    lookup raises before anything is sent. *)
Definition org_get_repos (o : option Organization) : M (list Repository.t) :=
  match o with
  | Some o => remote (GetRepos o) (fun h => organization_get_repos env h o)
  | None => raise (PyException "AttributeError"
                     "'NoneType' object has no attribute 'get_repos'")
  end.

(** [get_all_repos]: the listing, or the empty list when the listing
    raises a [GithubException]. *)
Definition get_all_repos (self : CustomPropertySetter) : M (list Repository.t) :=
  try_except
    (repos <- org_get_repos (org self) ;;
     logger_info (FoundRepos (length repos) (org_name self)) ;;
     ret repos)
    (fun e =>
       match e with
       | GithubException _ _ => Some (logger_error (FetchFailed e) ;; ret [])
       | _ => None
       end).

(** [set_custom_property]: one PATCH request; the handlers are tried in
    the order of the source, the last one taking every [Exception]. *)
Definition set_custom_property (self : CustomPropertySetter)
  (repo : Repository.t) (property_name property_value : string) : M bool :=
  let full_name := Repository.full_name repo in
  try_except
    (let req := patch_request self repo property_name property_value in
     response <- remote (Patch req) (fun h => requests_patch env h req) ;;
     raise_for_status response ;;
     logger_info (PropertySet property_name property_value full_name) ;;
     ret true)
    (fun e =>
       Some
         match e with
         | HTTPError response =>
             logger_error (HttpFailure full_name (status_code response)) ;;
             ret false
         | ConnectionError =>
             logger_error (ConnectionFailure full_name) ;; ret false
         | Timeout =>
             logger_error (RequestTimeout full_name) ;; ret false
         | RequestException _ =>
             logger_error (RequestError full_name (type_name e)) ;; ret false
         | _ =>
             logger_error (UnexpectedError full_name (type_name e)) ;; ret false
         end).

(** The inner loop of the dry run: one line per property. *)
Fixpoint log_items (items : list (string * string)) : M unit :=
  match items with
  | [] => ret tt
  | (prop_name, prop_value) :: rest =>
      logger_info (WouldSetItem prop_name prop_value) ;;
      log_items rest
  end.

(** The inner loop of a real run, from the current value of [success]. *)
Fixpoint apply_items (self : CustomPropertySetter) (repo : Repository.t)
  (items : list (string * string)) (success : bool) : M bool :=
  match items with
  | [] => ret success
  | (prop_name, prop_value) :: rest =>
      ok <- set_custom_property self repo prop_name prop_value ;;
      apply_items self repo rest (if negb ok then false else success)
  end.

(** The loop over the repositories, from the current counters. *)
Fixpoint for_repos (self : CustomPropertySetter) (properties : Dict.t)
  (dry_run : bool) (repos : list Repository.t) (results : Results)
  : M Results :=
  match repos with
  | [] => ret results
  | repo :: rest =>
      results' <-
        (if dry_run then
           logger_info (WouldSet (Repository.full_name repo)) ;;
           log_items (Dict.items properties) ;;
           ret {| success := success results; failed := failed results;
                  skipped := skipped results + 1 |}
         else
           ok <- apply_items self repo (Dict.items properties) true ;;
           if ok then
             ret {| success := success results + 1; failed := failed results;
                    skipped := skipped results |}
           else
             ret {| success := success results; failed := failed results + 1;
                    skipped := skipped results |}) ;;
      for_repos self properties dry_run rest results'
  end.

(** [set_properties_on_all_repos]: list, filter, loop. *)
Definition set_properties_on_all_repos (self : CustomPropertySetter)
  (properties : Dict.t) (dry_run : bool) (repo_filter : option string)
  : M Results :=
  repos <- get_all_repos self ;;
  repos <-
    (match repo_filter with
     | Some f =>
         if PyStr.truthy f then
           let repos := matching f repos in
           logger_info (FilteredTo (length repos) f) ;;
           ret repos
         else ret repos
     | None => ret repos
     end) ;;
  (if dry_run then logger_info DryRunMode else ret tt) ;;
  for_repos self properties dry_run repos
    {| success := 0; failed := 0; skipped := 0 |}.

(** [load_properties_from_file]: the mapping of the file, or
    [sys.exit(1)] when opening or decoding it raises. *)
Definition load_properties_from_file (file_path : string) : M Dict.t :=
  try_except
    (fun st =>
       match json_file env file_path with
       | Returns d => (Ret d, st)
       | Raises e => (Raise e, st)
       end)
    (fun e => Some (logger_error (LoadFailed file_path e) ;; sys_exit 1)).

(** The loop of [main] over the [--property] arguments. *)
Fixpoint parse_properties (props : list string) (properties : Dict.t)
  : M Dict.t :=
  match props with
  | [] => ret properties
  | prop :: rest =>
      let prop := PyStr.strip prop in
      if negb (PyStr.truthy prop) then
        logger_error EmptyProperty ;; sys_exit 1
      else if negb (PyStr.has_char "=" prop) then
        logger_error (InvalidFormat prop) ;; sys_exit 1
      else
        match PyStr.split1 "=" prop with
        | [name; value] =>
            let name := PyStr.strip name in
            let value := PyStr.strip value in
            if negb (PyStr.truthy name) then
              logger_error (EmptyName prop) ;; sys_exit 1
            else parse_properties rest (Dict.set name value properties)
        | _ => raise (PyException "ValueError"
                        "not enough values to unpack (expected 2, got 1)")
        end
  end.

(** The part of [main] that builds the property set: the file first, the
    [--property] arguments over it. *)
Definition read_properties (args : Args) : M Dict.t :=
  properties <-
    (match arg_properties_file args with
     | Some file_path =>
         if PyStr.truthy file_path then load_properties_from_file file_path
         else ret Dict.empty
     | None => ret Dict.empty
     end) ;;
  match arg_properties args with
  | Some (prop :: rest) => parse_properties (prop :: rest) properties
  | _ => ret properties
  end.

(** [main] up to the connection check (the level, the token, the
    property set, the setter and [validate_connection]): what the rest of
    [main] works with. *)
Definition prepare (args : Args) : M (CustomPropertySetter * Dict.t) :=
  (if arg_verbose args then logger_setLevel_DEBUG else ret tt) ;;
  (if negb (opt_truthy (arg_token args)) then
     logger_error TokenRequired ;; sys_exit 1
   else ret tt) ;;
  properties <- read_properties args ;;
  (if negb (Dict.truthy properties) then
     logger_error NoProperties ;; sys_exit 1
   else ret tt) ;;
  logger_info (PropertiesToSet properties) ;;
  let setter := init (token_of args) (arg_org args) in
  r <- validate_connection setter ;;
  let '(connected, setter) := r in
  (if negb connected then sys_exit 1 else ret tt) ;;
  ret (setter, properties).

(** The end of [main]: the summary and the exit on a failed repository. *)
Definition summary (args : Args) (results : Results) : M unit :=
  logger_info BlankLineAndRule ;;
  logger_info SummaryTitle ;;
  logger_info Rule ;;
  (if arg_dry_run args then
     logger_info (WouldUpdate (skipped results))
   else
     logger_info (Updated (success results)) ;;
     logger_info (FailedToUpdate (failed results))) ;;
  if (0 <? failed results)%nat then sys_exit 1 else ret tt.

(** [main], after [argparse]. *)
Definition main (args : Args) : M unit :=
  p <- prepare args ;;
  let '(setter, properties) := p in
  results <- set_properties_on_all_repos setter properties
               (arg_dry_run args) (arg_filter args) ;;
  summary args results.

(** The process from a fresh state: the outcome of [main] and the final
    state. *)
Definition run (args : Args) : outcome unit * State := main args initial.

End Script.

(** ** Notions the properties are stated with *)

(** [name] contains [f] case-insensitively: some contiguous run of
    [name] equals [f] once both are put in lower case. *)
Definition contains_ignoring_case (name f : string) : Prop :=
  exists pre mid suf : string,
    name = (pre ++ mid ++ suf)%string /\ PyStr.lower mid = PyStr.lower f.

(** The repositories a run works on: those of [repos] that the filter
    keeps, in the order of the listing. *)
Definition selected (repo_filter : option string) (repos : list Repository.t)
  : list Repository.t :=
  match repo_filter with
  | Some f => if PyStr.truthy f then matching f repos else repos
  | None => repos
  end.

(** The update requests of a trace, in order. *)
Fixpoint patches (cs : list NetCall) : list PatchRequest :=
  match cs with
  | [] => []
  | Patch req :: rest => req :: patches rest
  | _ :: rest => patches rest
  end.

(** The status classes of HTTP. *)
Definition is_2xx (code : Z) : bool := ((200 <=? code) && (code <? 300))%Z.
Definition is_client_error (code : Z) : bool := ((400 <=? code) && (code <? 500))%Z.
Definition is_server_error (code : Z) : bool := ((500 <=? code) && (code <? 600))%Z.

(** Whether the update [req], sent after the calls [h], succeeds: the
    environment answers with a response and its status is neither a
    client nor a server error. *)
Definition update_succeeds (env : Env) (h : list NetCall) (req : PatchRequest)
  : bool :=
  match requests_patch env h req with
  | Returns r => negb (is_client_error (status_code r) || is_server_error (status_code r))
  | Raises _ => false
  end.

(** The requests one repository gets in a real run: one for each item of
    the property set, in the order of the set. *)
Definition requests_for (self : CustomPropertySetter) (properties : Dict.t)
  (repo : Repository.t) : list PatchRequest :=
  map (fun item => patch_request self repo (fst item) (snd item))
      (Dict.items properties).

(** Whether every request of [reqs] succeeds when they are sent one after
    the other, the first after the calls [h]. *)
Fixpoint all_succeed (env : Env) (h : list NetCall) (reqs : list PatchRequest)
  : bool :=
  match reqs with
  | [] => true
  | req :: rest =>
      update_succeeds env h req && all_succeed env (h ++ [Patch req]) rest
  end.

(** For each repository in turn, whether all its updates succeed, the
    first repository being served after the calls [h]. *)
Fixpoint outcomes (env : Env) (self : CustomPropertySetter)
  (properties : Dict.t) (h : list NetCall) (repos : list Repository.t)
  : list bool :=
  match repos with
  | [] => []
  | repo :: rest =>
      let reqs := requests_for self properties repo in
      all_succeed env h reqs
      :: outcomes env self properties (h ++ map Patch reqs) rest
  end.

(** How many entries of [l] are [b]. *)
Definition count (b : bool) (l : list bool) : nat :=
  length (filter (Bool.eqb b) l).

(** The argument [prop] of [--property] assigns [value] to [name]: once
    the surrounding whitespace is gone, the text before its first ['=']
    is [name] and the text after it is [value], each up to surrounding
    whitespace. *)
Definition assigns (prop name value : string) : Prop :=
  exists a b : string,
    PyStr.strip prop = (a ++ String "=" b)%string
    /\ PyStr.has_char "=" a = false
    /\ name = PyStr.strip a /\ value = PyStr.strip b.

(** Text with no whitespace at either end. *)
Definition clean (s : string) : Prop :=
  PyStr.starts_with_space s = false /\ PyStr.ends_with_space s = false.

(** An argument of [--property] that is not of the form name=value with a
    name: it has no ['='] once stripped, or nothing but whitespace before
    its first ['=']. *)
Definition malformed (prop : string) : Prop :=
  PyStr.has_char "=" (PyStr.strip prop) = false
  \/ exists value, assigns prop "" value.

(** A computation that neither reads the log nor the level: its outcome
    and the calls it makes depend on the calls made so far only. *)
Definition log_blind {A} (m : M A) : Prop :=
  forall st st' : State,
    calls st = calls st' ->
    fst (m st) = fst (m st') /\ calls (snd (m st)) = calls (snd (m st')).

(** The state with more log entries and more calls. *)
Definition grown (st : State) (entries : list (Level * Message))
  (more : list NetCall) (lvl : bool) : State :=
  {| log := log st ++ entries; calls := calls st ++ more; debug := lvl |}.

(** The setter once [validate_connection] has stored the organization. *)
Definition connected_setter (args : Args) (o : Organization)
  : CustomPropertySetter :=
  {| github_auth := token_of args; token := token_of args;
     org_name := arg_org args; org := Some o |}.

(** The state the driver starts from in a run of [main], up to the log
    and the level, which it does not read: the connection attempt is the
    only call made. *)
Definition after_connection (args : Args) : State :=
  {| log := [];
     calls := [GetOrganization (token_of args) (arg_org args)];
     debug := false |}.

(** How [main] ends once the driver has ended. *)
Definition ending (o : outcome Results) : outcome unit :=
  match o with
  | Ret results => if (0 <? failed results)%nat then SysExit 1 else Ret tt
  | SysExit c => SysExit c
  | Raise e => Raise e
  end.

(** The same world with the text of every response to an update
    erased. *)
Definition without_bodies (env : Env) : Env :=
  {| github_get_organization := github_get_organization env;
     organization_get_repos := organization_get_repos env;
     requests_patch := fun h req =>
       match requests_patch env h req with
       | Returns r => Returns {| status_code := status_code r; text := "" |}
       | Raises (HTTPError r) =>
           Raises (HTTPError {| status_code := status_code r; text := "" |})
       | Raises e => Raises e
       end;
     json_file := json_file env |}.

(** ** A small organization to run the script on *)

Module Sample.

Definition web : Repository.t :=
  {| Repository.name := "web-Frontend"; Repository.full_name := "acme/web-Frontend" |}.

Definition api : Repository.t :=
  {| Repository.name := "api"; Repository.full_name := "acme/api" |}.

Definition docs : Repository.t :=
  {| Repository.name := "frontend-docs"; Repository.full_name := "acme/frontend-docs" |}.

Definition acme : Organization := {| login := "acme" |}.

(** The organization [acme] has three repositories; every update is
    answered with 200, except the property [env] on [acme/api], which is
    answered with 422 and a body; [properties.json] is the one
    properties file. *)
Definition world : Env :=
  {| github_get_organization := fun _ _ org_name =>
       if String.eqb org_name "acme" then Returns acme
       else Raises (GithubException 404 "Not Found");
     organization_get_repos := fun _ _ => Returns [web; api; docs];
     requests_patch := fun _ req =>
       if String.eqb (url req) "https://api.github.com/repos/acme/api/properties/values"
          && match json_properties req with
             | [pv] => String.eqb (property_name pv) "env"
             | _ => false
             end
       then Returns {| status_code := 422; text := "Validation failed: env has no value prod" |}
       else Returns {| status_code := 200; text := "" |};
     json_file := fun file_path =>
       if String.eqb file_path "properties.json"
       then Returns [("team", "platform"); ("tier", "gold")]
       else Raises (PyException "FileNotFoundError" "No such file") |}.

(** The same organization after the token has lost its rights: the
    connection still answers, the listing is refused with status 401. *)
Definition revoked : Env :=
  {| github_get_organization := github_get_organization world;
     organization_get_repos := fun _ _ =>
       Raises (GithubException 401 "Bad credentials");
     requests_patch := requests_patch world;
     json_file := json_file world |}.

(** The same organization when every update is answered with 304. *)
Definition not_modified : Env :=
  {| github_get_organization := github_get_organization world;
     organization_get_repos := organization_get_repos world;
     requests_patch := fun _ _ =>
       Returns {| status_code := 304; text := "" |};
     json_file := json_file world |}.

Definition setter : CustomPropertySetter :=
  {| github_auth := "t0k3n"; token := "t0k3n"; org_name := "acme";
     org := Some acme |}.

Definition properties : Dict.t := [("team", "backend"); ("env", "prod")].

(** The state [main] is in when the driver starts. *)
Definition connected : State :=
  {| log := [(INFO, PropertiesToSet properties); (INFO, ConnectedTo "acme")];
     calls := [GetOrganization "t0k3n" "acme"];
     debug := false |}.

Definition args : Args :=
  {| arg_token := Some "t0k3n"; arg_org := "acme";
     arg_properties := Some ["team=backend"; "env=prod"];
     arg_properties_file := None;
     arg_dry_run := false; arg_filter := None; arg_verbose := false |}.

(** The same command line without any property source. *)
Definition no_properties : Args :=
  {| arg_token := Some "t0k3n"; arg_org := "acme";
     arg_properties := None; arg_properties_file := None;
     arg_dry_run := false; arg_filter := None; arg_verbose := true |}.

(** A dry run over the repositories whose name contains [front]. *)
Definition dry_args : Args :=
  {| arg_token := Some "t0k3n"; arg_org := "acme";
     arg_properties := Some ["team=backend"];
     arg_properties_file := None;
     arg_dry_run := true; arg_filter := Some "front"; arg_verbose := false |}.

(** A command line that names the properties file and assigns [team]
    twice. *)
Definition file_args : Args :=
  {| arg_token := Some "t0k3n"; arg_org := "acme";
     arg_properties := Some ["team=backend"; "env=prod"; " team = data "];
     arg_properties_file := Some "properties.json";
     arg_dry_run := false; arg_filter := None; arg_verbose := false |}.

End Sample.

(** ** The placeholder library, [stunning_memory/core.py] *)

Module Core.

(** [example_function(name)], the f-string [Hello, {name}!]; [name]
    defaults to [World]. *)
Definition example_function (name : string) : string :=
  ("Hello, " ++ name ++ "!")%string.

(** An [ExampleClass] object: its attribute [value], a Python [int]. *)
Record ExampleClass := { value : Z }.

(** [ExampleClass(value)]; [value] defaults to 0. *)
Definition init (v : Z) : ExampleClass := {| value := v |}.

(** [self.increment(amount)]: the value returned and the object after the
    call; [amount] defaults to 1. *)
Definition increment (self : ExampleClass) (amount : Z) : Z * ExampleClass :=
  let self' := {| value := value self + amount |} in
  (value self', self').

(** [self.get_value()]. *)
Definition get_value (self : ExampleClass) : Z := value self.

(** A caller that increments by each amount in turn: the values the calls
    return, and the object at the end. *)
Fixpoint increments (self : ExampleClass) (amounts : list Z)
  : list Z * ExampleClass :=
  match amounts with
  | [] => ([], self)
  | amount :: rest =>
      let (r, self') := increment self amount in
      let (rs, self'') := increments self' rest in
      (r :: rs, self'')
  end.

End Core.

(** ** Further notions *)

(** The same command line with the [--verbose] flag set to [b]. *)
Definition with_verbose (b : bool) (args : Args) : Args :=
  {| arg_token := arg_token args; arg_org := arg_org args;
     arg_properties := arg_properties args;
     arg_properties_file := arg_properties_file args;
     arg_dry_run := arg_dry_run args; arg_filter := arg_filter args;
     arg_verbose := b |}.

(** The [--property] arguments of a command line, none when the flag was
    not given. *)
Definition property_args (args : Args) : list string :=
  match arg_properties args with
  | Some props => props
  | None => []
  end.

(** The repository a message is about, for the messages that name one. *)
Definition about (m : Message) : option string :=
  match m with
  | PropertySet _ _ full_name => Some full_name
  | HttpFailure full_name _ => Some full_name
  | ConnectionFailure full_name => Some full_name
  | RequestTimeout full_name => Some full_name
  | RequestError full_name _ => Some full_name
  | UnexpectedError full_name _ => Some full_name
  | WouldSet full_name => Some full_name
  | _ => None
  end.

(** What a dry run announces for one repository: its name, then one line
    for each item of the property set. *)
Definition intended (properties : Dict.t) (repo : Repository.t)
  : list (Level * Message) :=
  (INFO, WouldSet (Repository.full_name repo))
  :: map (fun item => (INFO, WouldSetItem (fst item) (snd item)))
         (Dict.items properties).

(** The lines the driver logs between the listing and its loop: the
    count of the filter, when there is a filter, and the dry-run notice,
    in a dry run. *)
Definition notices (repo_filter : option string) (dry_run : bool)
  (repos : list Repository.t) : list (Level * Message) :=
  match repo_filter with
  | Some f =>
      if PyStr.truthy f
      then [(INFO, FilteredTo (length (matching f repos)) f)]
      else []
  | None => []
  end
  ++ (if dry_run then [(INFO, DryRunMode)] else []).

(** The summary block of [main] for the counters [results]. *)
Definition summary_lines (dry_run : bool) (results : Results)
  : list (Level * Message) :=
  [(INFO, BlankLineAndRule); (INFO, SummaryTitle); (INFO, Rule)]
  ++ (if dry_run then [(INFO, WouldUpdate (skipped results))]
      else [(INFO, Updated (success results));
            (INFO, FailedToUpdate (failed results))]).

(** A log line of level INFO. *)
Definition is_info (entry : Level * Message) : bool :=
  match fst entry with
  | INFO => true
  | ERROR => false
  end.

(** * Facts about the string operations *)

Lemma append_empty_r (s : string) : (s ++ "")%string = s.
Proof. induction s as [|c s IH]; simpl; [reflexivity | now rewrite IH]. Qed.

Lemma append_assoc (a b c : string) :
  ((a ++ b) ++ c)%string = (a ++ b ++ c)%string.
Proof. induction a as [|x a IH]; simpl; [reflexivity | now rewrite IH]. Qed.

Lemma prefix_iff (a b : string) :
  prefix a b = true <-> exists suf, b = (a ++ suf)%string.
Proof.
  revert b; induction a as [|x a IH]; intros b; simpl.
  - split; [intros _; now exists b | now destruct b].
  - destruct b as [|y b].
    + split; [discriminate | intros [suf H]; discriminate].
    + simpl. destruct (ascii_dec x y) as [->|Hne].
      * rewrite IH. split; intros [suf H]; exists suf.
        -- now rewrite H.
        -- now injection H.
      * split; [discriminate|].
        intros [suf H]. injection H as H1 H2. now elim Hne.
Qed.

Lemma contains_iff (hay needle : string) :
  PyStr.contains hay needle = true <->
  exists pre suf, hay = (pre ++ needle ++ suf)%string.
Proof.
  induction hay as [|c hay IH].
  - change (PyStr.contains "" needle) with (prefix needle "" || false).
    rewrite orb_false_r, prefix_iff. split.
    + intros [suf H]. now exists ""%string, suf.
    + intros [[|x pre] [suf H]]; [now exists suf | discriminate].
  - change (PyStr.contains (String c hay) needle)
      with (prefix needle (String c hay) || PyStr.contains hay needle).
    rewrite orb_true_iff, prefix_iff, IH. split.
    + intros [[suf H] | [pre [suf H]]].
      * now exists ""%string, suf.
      * exists (String c pre), suf. simpl. now rewrite H.
    + intros [[|x pre] [suf H]].
      * left. now exists suf.
      * right. simpl in H. injection H as _ H. now exists pre, suf.
Qed.

Lemma lower_append (a b : string) :
  PyStr.lower (a ++ b) = (PyStr.lower a ++ PyStr.lower b)%string.
Proof. induction a as [|x a IH]; simpl; [reflexivity | now rewrite IH]. Qed.

Lemma lower_length (s : string) : String.length (PyStr.lower s) = String.length s.
Proof. induction s as [|x s IH]; simpl; [reflexivity | now rewrite IH]. Qed.

(** A cut of [lower s] comes from a cut of [s]. *)
Lemma lower_split (s a b : string) :
  PyStr.lower s = (a ++ b)%string ->
  exists s1 s2, s = (s1 ++ s2)%string /\ PyStr.lower s1 = a /\ PyStr.lower s2 = b.
Proof.
  revert s; induction a as [|x a IH]; intros s H; simpl in H.
  - now exists ""%string, s.
  - destruct s as [|y s]; [discriminate|].
    simpl in H. injection H as Hx Hs.
    destruct (IH s Hs) as (s1 & s2 & -> & H1 & H2).
    exists (String y s1), s2. simpl. now rewrite Hx, H1.
Qed.

(** The test of the filter, [f.lower() in name.lower()], decides
    containment up to case. *)
Lemma contains_lower_iff (name f : string) :
  PyStr.contains (PyStr.lower name) (PyStr.lower f) = true <->
  contains_ignoring_case name f.
Proof.
  rewrite contains_iff. unfold contains_ignoring_case. split.
  - intros (pre & suf & H).
    destruct (lower_split _ _ _ H) as (s1 & s23 & -> & H1 & H23).
    destruct (lower_split _ _ _ H23) as (s2 & s3 & -> & H2 & H3).
    now exists s1, s2, s3.
  - intros (pre & mid & suf & -> & H).
    exists (PyStr.lower pre), (PyStr.lower suf).
    now rewrite !lower_append, H.
Qed.

Lemma lstrip_spec (s : string) :
  exists l, s = (l ++ PyStr.lstrip s)%string /\ PyStr.all_space l = true
            /\ PyStr.starts_with_space (PyStr.lstrip s) = false.
Proof.
  induction s as [|c s (l & Hs & Hl & Hn)]; simpl.
  - now exists ""%string.
  - destruct (PyStr.isspace c) eqn:Hc.
    + exists (String c l). simpl. now rewrite Hc, Hl, <- Hs.
    + exists ""%string. simpl. now rewrite Hc.
Qed.

Lemma rstrip_spec (s : string) :
  exists r, s = (PyStr.rstrip s ++ r)%string /\ PyStr.all_space r = true
            /\ PyStr.ends_with_space (PyStr.rstrip s) = false.
Proof.
  induction s as [|c s (r & Hs & Hr & Hn)]; simpl.
  - now exists ""%string.
  - destruct (PyStr.rstrip s) as [|d t] eqn:Ht.
    + destruct (PyStr.isspace c) eqn:Hc.
      * exists (String c r). simpl in *. subst s. now rewrite Hc, Hr.
      * exists r. simpl in *. subst s. now rewrite Hc.
    + exists r. split; [simpl; f_equal; exact Hs | now split].
Qed.

Lemma rstrip_keeps_start (s : string) :
  PyStr.starts_with_space s = false ->
  PyStr.starts_with_space (PyStr.rstrip s) = false.
Proof.
  destruct s as [|c s]; simpl; [reflexivity|]. intros Hc.
  destruct (PyStr.rstrip s); [now rewrite Hc | exact Hc].
Qed.

(** [strip] removes a run of whitespace at each end and leaves none. *)
Lemma strip_spec (s : string) :
  exists l r, s = (l ++ PyStr.strip s ++ r)%string
    /\ PyStr.all_space l = true /\ PyStr.all_space r = true
    /\ PyStr.starts_with_space (PyStr.strip s) = false
    /\ PyStr.ends_with_space (PyStr.strip s) = false.
Proof.
  unfold PyStr.strip.
  destruct (lstrip_spec s) as (l & Hs & Hl & Hn).
  destruct (rstrip_spec (PyStr.lstrip s)) as (r & Hs' & Hr & Hn').
  exists l, r. repeat split; auto using rstrip_keeps_start.
  now rewrite <- Hs'.
Qed.

(** Text that neither starts nor ends with whitespace is left alone. *)
Lemma lstrip_id (s : string) :
  PyStr.starts_with_space s = false -> PyStr.lstrip s = s.
Proof. destruct s as [|c s]; simpl; [reflexivity | now intros ->]. Qed.

Lemma rstrip_id (s : string) :
  PyStr.ends_with_space s = false -> PyStr.rstrip s = s.
Proof.
  induction s as [|c s IH]; simpl; [reflexivity|].
  destruct s as [|d s].
  - simpl. now intros ->.
  - intros H. now rewrite (IH H).
Qed.

Lemma strip_id (s : string) :
  PyStr.starts_with_space s = false -> PyStr.ends_with_space s = false ->
  PyStr.strip s = s.
Proof. intros H1 H2. unfold PyStr.strip. now rewrite lstrip_id, rstrip_id. Qed.

Lemma all_space_lstrip (l s : string) :
  PyStr.all_space l = true -> PyStr.lstrip (l ++ s) = PyStr.lstrip s.
Proof.
  induction l as [|c l IH]; simpl; [reflexivity|].
  intros H. apply andb_true_iff in H as [-> H]. now apply IH.
Qed.

Lemma all_space_rstrip_nil (r : string) :
  PyStr.all_space r = true -> PyStr.rstrip r = ""%string.
Proof.
  induction r as [|c r IH]; simpl; [reflexivity|].
  intros H. apply andb_true_iff in H as [-> H]. now rewrite IH.
Qed.

Lemma all_space_rstrip (s r : string) :
  PyStr.all_space r = true -> PyStr.rstrip (s ++ r) = PyStr.rstrip s.
Proof.
  intros H. induction s as [|c s IH]; simpl.
  - now apply all_space_rstrip_nil.
  - now rewrite IH.
Qed.

(** Whitespace around a clean text is all that [strip] takes away. *)
Lemma strip_surrounded (l s r : string) :
  PyStr.all_space l = true -> PyStr.all_space r = true ->
  PyStr.starts_with_space s = false -> PyStr.ends_with_space s = false ->
  PyStr.strip (l ++ s ++ r) = s.
Proof.
  intros Hl Hr H1 H2. unfold PyStr.strip.
  rewrite all_space_lstrip by exact Hl.
  destruct s as [|c s].
  - simpl. destruct (lstrip_spec r) as (l' & Hr' & _ & _).
    clear H1 H2.
    assert (PyStr.lstrip r = ""%string) as ->; [|reflexivity].
    clear l' Hr'. induction r as [|c r IH]; simpl; [reflexivity|].
    simpl in Hr. apply andb_true_iff in Hr as [-> Hr]. now apply IH.
  - rewrite lstrip_id.
    + rewrite all_space_rstrip by exact Hr. now apply rstrip_id.
    + exact H1.
Qed.

Lemma split1_found (sep : ascii) (s : string) :
  PyStr.has_char sep s = true ->
  exists a b, PyStr.split1 sep s = [a; b]
    /\ s = (a ++ String sep b)%string /\ PyStr.has_char sep a = false.
Proof.
  induction s as [|c s IH]; simpl; [discriminate|].
  rewrite (Ascii.eqb_sym sep c).
  destruct (Ascii.eqb c sep) eqn:Hc; simpl.
  - intros _. apply Ascii.eqb_eq in Hc as ->. now exists ""%string, s.
  - intros H. destruct (IH H) as (a & b & -> & -> & Ha).
    exists (String c a), b. simpl.
    rewrite (Ascii.eqb_sym sep c), Hc. now rewrite Ha.
Qed.

Lemma split1_absent (sep : ascii) (s : string) :
  PyStr.has_char sep s = false -> PyStr.split1 sep s = [s].
Proof.
  induction s as [|c s IH]; simpl; [reflexivity|].
  rewrite (Ascii.eqb_sym sep c).
  destruct (Ascii.eqb c sep); simpl; [discriminate|].
  intros H. now rewrite (IH H).
Qed.

(** Cutting at the first separator: the text before it has none. *)
Lemma split1_first (sep : ascii) (a b : string) :
  PyStr.has_char sep a = false ->
  PyStr.split1 sep (a ++ String sep b) = [a; b].
Proof.
  induction a as [|c a IH]; simpl.
  - now rewrite Ascii.eqb_refl.
  - rewrite (Ascii.eqb_sym sep c).
    destruct (Ascii.eqb c sep); simpl; [discriminate|].
    intros H. now rewrite (IH H).
Qed.

Lemma has_char_append (sep : ascii) (a b : string) :
  PyStr.has_char sep (a ++ b) = PyStr.has_char sep a || PyStr.has_char sep b.
Proof.
  induction a as [|c a IH]; simpl; [reflexivity|].
  now rewrite IH, orb_assoc.
Qed.

(** * Facts about the dictionary *)

Lemma dict_get_set_same (k v : string) (d : Dict.t) :
  Dict.get k (Dict.set k v d) = Some v.
Proof.
  induction d as [|[k' v'] d IH]; simpl.
  - now rewrite String.eqb_refl.
  - destruct (String.eqb k k') eqn:E; simpl; rewrite ?String.eqb_refl, ?E; auto.
Qed.

Lemma dict_get_set_other (k k' v : string) (d : Dict.t) :
  k <> k' -> Dict.get k' (Dict.set k v d) = Dict.get k' d.
Proof.
  intros Hne. induction d as [|[k0 v0] d IH]; simpl.
  - destruct (String.eqb k' k) eqn:E; [|reflexivity].
    apply String.eqb_eq in E. now elim Hne.
  - destruct (String.eqb k k0) eqn:E; simpl.
    + apply String.eqb_eq in E. subst k0.
      destruct (String.eqb k' k) eqn:E'; [|reflexivity].
      apply String.eqb_eq in E'. now elim Hne.
    + now rewrite IH.
Qed.

Lemma dict_set_truthy (k v : string) (d : Dict.t) :
  Dict.truthy (Dict.set k v d) = true.
Proof.
  destruct d as [|[k' v'] d]; simpl; [reflexivity|].
  now destruct (String.eqb k k').
Qed.

Lemma dict_keys_set (k v : string) (d : Dict.t) :
  Dict.keys (Dict.set k v d)
  = if in_dec string_dec k (Dict.keys d) then Dict.keys d else Dict.keys d ++ [k].
Proof.
  induction d as [|[k' v'] d IH]; simpl; [reflexivity|].
  destruct (String.eqb k k') eqn:E.
  - apply String.eqb_eq in E. subst k'. simpl.
    destruct (string_dec k k); [reflexivity | contradiction].
  - apply String.eqb_neq in E. simpl. rewrite IH.
    destruct (string_dec k' k) as [Heq|Hne]; [now elim E|].
    now destruct (in_dec string_dec k (Dict.keys d)).
Qed.

(** Assignment keeps the keys of a dictionary distinct. *)
Lemma dict_set_NoDup (k v : string) (d : Dict.t) :
  NoDup (Dict.keys d) -> NoDup (Dict.keys (Dict.set k v d)).
Proof.
  intros H. rewrite dict_keys_set.
  destruct (in_dec string_dec k (Dict.keys d)) as [|Hn]; [exact H|].
  apply NoDup_rev in H. rewrite <- (rev_involutive (_ ++ _)).
  apply NoDup_rev. rewrite rev_app_distr. simpl.
  constructor; [now rewrite <- in_rev | exact H].
Qed.

(** * Facts about states and the monad *)

Lemma grown_nothing (st : State) : grown st [] [] (debug st) = st.
Proof. destruct st. unfold grown. simpl. now rewrite !app_nil_r. Qed.

Lemma grown_again (st : State) e1 e2 c1 c2 l1 l2 :
  grown (grown st e1 c1 l1) e2 c2 l2 = grown st (e1 ++ e2) (c1 ++ c2) l2.
Proof. unfold grown. simpl. now rewrite !app_assoc. Qed.

Lemma patches_app (a b : list NetCall) :
  patches (a ++ b) = patches a ++ patches b.
Proof.
  induction a as [|c a IH]; simpl; [reflexivity|].
  destruct c; simpl; now rewrite IH.
Qed.

Lemma patches_map_Patch (reqs : list PatchRequest) :
  patches (map Patch reqs) = reqs.
Proof. induction reqs as [|r reqs IH]; simpl; [reflexivity | now rewrite IH]. Qed.

Lemma emit_run (l : Level) (m : Message) (st : State) :
  emit l m st = (Ret tt, grown st [(l, m)] [] (debug st)).
Proof. unfold emit, grown. now rewrite app_nil_r. Qed.

Lemma http_error_classes (code : Z) :
  ((400 <=? code) && (code <? 600))%Z
  = is_client_error code || is_server_error code.
Proof.
  unfold is_client_error, is_server_error.
  destruct (400 <=? code)%Z eqn:A, (code <? 600)%Z eqn:B,
           (code <? 500)%Z eqn:C, (500 <=? code)%Z eqn:D; simpl; try reflexivity; lia.
Qed.

Lemma log_blind_ret {A} (a : A) : log_blind (ret a).
Proof. intros st st' H. now split. Qed.

Lemma log_blind_sys_exit {A} (c : Z) : log_blind (@sys_exit A c).
Proof. intros st st' H. now split. Qed.

Lemma log_blind_raise {A} (e : exn) : log_blind (@raise A e).
Proof. intros st st' H. now split. Qed.

Lemma log_blind_emit (l : Level) (m : Message) : log_blind (emit l m).
Proof. intros st st' H. now split. Qed.

Lemma log_blind_setLevel : log_blind logger_setLevel_DEBUG.
Proof. intros st st' H. now split. Qed.

Lemma log_blind_remote {A} (c : NetCall) (answer : list NetCall -> reply A) :
  log_blind (remote c answer).
Proof.
  intros st st' H. unfold remote. rewrite H.
  destruct (answer (calls st')); simpl; now split.
Qed.

Lemma log_blind_bind {A B} (m : M A) (k : A -> M B) :
  log_blind m -> (forall a, log_blind (k a)) -> log_blind (bind m k).
Proof.
  intros Hm Hk st st' H. unfold bind.
  destruct (Hm st st' H) as [Ho Hc].
  destruct (m st) as [o s], (m st') as [o' s']. simpl in Ho, Hc. subst o'.
  destruct o; simpl; auto. now apply Hk.
Qed.

Lemma log_blind_try_except {A} (body : M A) (handler : exn -> option (M A)) :
  log_blind body ->
  (forall e h, handler e = Some h -> log_blind h) ->
  log_blind (try_except body handler).
Proof.
  intros Hb Hh st st' H. unfold try_except.
  destruct (Hb st st' H) as [Ho Hc].
  destruct (body st) as [o s], (body st') as [o' s']. simpl in Ho, Hc. subst o'.
  destruct o; simpl; auto.
  destruct (handler e) eqn:E; simpl; auto. now apply (Hh e).
Qed.


(** * Facts about the operations of the setter *)

Section Setter.

Variable env : Env.

(** One call of [set_custom_property]: one request on the trace, one
    line in the log, and the answer is whether the update succeeded. *)
Lemma set_custom_property_run self repo n v st :
  exists entry,
    set_custom_property env self repo n v st
    = (Ret (update_succeeds env (calls st) (patch_request self repo n v)),
       grown st [entry] [Patch (patch_request self repo n v)] (debug st)).
Proof.
  unfold set_custom_property, try_except, bind, remote, update_succeeds.
  destruct (requests_patch env (calls st) _) as [r|e].
  - unfold raise_for_status. rewrite http_error_classes.
    destruct (is_client_error _ || is_server_error _); simpl;
      eexists; reflexivity.
  - destruct e; simpl; eexists; reflexivity.
Qed.

Lemma apply_items_run self repo items success st :
  exists entries,
    apply_items env self repo items success st
    = (Ret (success
            && all_succeed env (calls st)
                 (map (fun item => patch_request self repo (fst item) (snd item)) items)),
       grown st entries
         (map Patch (map (fun item => patch_request self repo (fst item) (snd item)) items))
         (debug st)).
Proof.
  revert success st. induction items as [|[n v] items IH]; intros success st.
  - exists []. simpl. unfold ret. now rewrite andb_true_r, grown_nothing.
  - simpl. unfold bind.
    destruct (set_custom_property_run self repo n v st) as [entry ->].
    destruct (IH (if negb (update_succeeds env (calls st) (patch_request self repo n v))
                  then false else success)
                 (grown st [entry] [Patch (patch_request self repo n v)] (debug st)))
      as [entries ->].
    exists (entry :: entries). rewrite grown_again. simpl. f_equal. f_equal.
    destruct (update_succeeds env (calls st) _), success; reflexivity.
Qed.

Lemma log_items_run items st :
  exists entries, log_items items st = (Ret tt, grown st entries [] (debug st)).
Proof.
  revert st. induction items as [|[n v] items IH]; intros st.
  - exists []. simpl. unfold ret. now rewrite grown_nothing.
  - simpl. unfold bind, logger_info. rewrite emit_run.
    destruct (IH (grown st [(INFO, WouldSetItem n v)] [] (debug st))) as [entries ->].
    eexists. now rewrite grown_again.
Qed.

(** A dry run over [repos]: every repository is counted as skipped and
    nothing is sent. *)
Lemma for_repos_dry_run self properties repos results st :
  exists entries,
    for_repos env self properties true repos results st
    = (Ret {| success := success results; failed := failed results;
              skipped := skipped results + length repos |},
       grown st entries [] (debug st)).
Proof.
  revert results st. induction repos as [|repo repos IH]; intros results st.
  - exists []. simpl. unfold ret. rewrite grown_nothing, Nat.add_0_r.
    now destruct results.
  - simpl. unfold bind at 1 2 3. unfold logger_info. rewrite emit_run.
    destruct (log_items_run (Dict.items properties)
                (grown st [(INFO, WouldSet (Repository.full_name repo))] [] (debug st)))
      as [e1 ->].
    unfold ret at 1. simpl debug.
    match goal with |- context [for_repos _ _ _ _ _ ?r ?s] =>
      destruct (IH r s) as [e2 ->] end.
    eexists. rewrite !grown_again. simpl.
    do 3 f_equal. lia.
Qed.

(** A real run over [repos]: each repository gets its requests, in order,
    and is counted as succeeded when all of them succeed and as failed
    otherwise. *)
Lemma for_repos_real_run self properties repos results st :
  exists entries,
    for_repos env self properties false repos results st
    = (Ret {| success := success results
                         + count true (outcomes env self properties (calls st) repos);
              failed := failed results
                        + count false (outcomes env self properties (calls st) repos);
              skipped := skipped results |},
       grown st entries
         (map Patch (flat_map (requests_for self properties) repos))
         (debug st)).
Proof.
  revert results st. induction repos as [|repo repos IH]; intros results st.
  - exists []. simpl. unfold ret, count. simpl.
    rewrite grown_nothing, !Nat.add_0_r. now destruct results.
  - simpl. unfold bind at 1 2.
    destruct (apply_items_run self repo (Dict.items properties) true st)
      as [e1 ->].
    fold (requests_for self properties repo).
    destruct (all_succeed env (calls st) (requests_for self properties repo)) eqn:E;
      cbn [andb]; unfold ret; cbv beta iota;
      match goal with |- context [for_repos _ _ _ _ _ ?r ?s] =>
        destruct (IH r s) as [e2 ->] end;
      exists (e1 ++ e2); rewrite grown_again; simpl;
      rewrite map_app; unfold count; simpl; do 3 f_equal; lia.
Qed.

End Setter.

(** * Facts about the listing and the batch driver *)

Section Driver.

Variable env : Env.

(** What [get_all_repos] does with each answer of the listing. *)
Lemma get_all_repos_cases self st :
  match org self with
  | None =>
      exists e, get_all_repos env self st = (Raise e, st)
  | Some o =>
      match organization_get_repos env (calls st) o with
      | Returns repos =>
          get_all_repos env self st
          = (Ret repos,
             grown st [(INFO, FoundRepos (length repos) (org_name self))]
               [GetRepos o] (debug st))
      | Raises (GithubException status msg) =>
          get_all_repos env self st
          = (Ret [],
             grown st [(ERROR, FetchFailed (GithubException status msg))]
               [GetRepos o] (debug st))
      | Raises e =>
          get_all_repos env self st = (Raise e, grown st [] [GetRepos o] (debug st))
      end
  end.
Proof.
  unfold get_all_repos, try_except, bind, org_get_repos, remote, grown.
  destruct (org self) as [o|]; simpl.
  - destruct (organization_get_repos env (calls st) o) as [repos|e]; simpl.
    + reflexivity.
    + destruct e; simpl; rewrite ?app_nil_r; reflexivity.
  - eexists. reflexivity.
Qed.

(** The listing sends no update. *)
Lemma get_all_repos_patches self st :
  patches (calls (snd (get_all_repos env self st))) = patches (calls st).
Proof.
  pose proof (get_all_repos_cases self st) as H.
  destruct (org self) as [o|].
  - destruct (organization_get_repos env (calls st) o) as [repos|e].
    + rewrite H. simpl. now rewrite patches_app, app_nil_r.
    + destruct e; rewrite H; simpl; now rewrite patches_app, app_nil_r.
  - destruct H as [e ->]. reflexivity.
Qed.

(** After a listing that returns, the driver is the loop over the
    selected repositories, started from zeroed counters; the filter and
    the dry-run notice add log lines only. *)
Lemma driver_after_listing self properties dry_run repo_filter st repos st1 :
  get_all_repos env self st = (Ret repos, st1) ->
  exists entries,
    set_properties_on_all_repos env self properties dry_run repo_filter st
    = for_repos env self properties dry_run (selected repo_filter repos)
        {| success := 0; failed := 0; skipped := 0 |}
        (grown st1 entries [] (debug st1)).
Proof.
  intros H. unfold set_properties_on_all_repos, bind at 1. rewrite H.
  unfold selected, bind, logger_info.
  destruct repo_filter as [f|]; [destruct (PyStr.truthy f)|];
    destruct dry_run; unfold ret; rewrite ?emit_run; cbv beta iota;
    rewrite ?emit_run; cbv beta iota; rewrite ?grown_again;
    try (eexists; reflexivity);
    exists []; now rewrite grown_nothing.
Qed.

(** A listing that raises ends the driver with the same exception. *)
Lemma driver_listing_raises self properties dry_run repo_filter st e st1 :
  get_all_repos env self st = (Raise e, st1) ->
  set_properties_on_all_repos env self properties dry_run repo_filter st
  = (Raise e, st1).
Proof.
  intros H. unfold set_properties_on_all_repos, bind at 1. now rewrite H.
Qed.

(** The listing never leaves through [sys.exit]. *)
Lemma get_all_repos_no_exit self st c st1 :
  get_all_repos env self st <> (SysExit c, st1).
Proof.
  pose proof (get_all_repos_cases self st) as H.
  destruct (org self) as [o|].
  - destruct (organization_get_repos env (calls st) o) as [repos|e];
      [|destruct e]; rewrite H; discriminate.
  - destruct H as [e ->]. discriminate.
Qed.

Lemma filter_all {A} (p : A -> bool) (l : list A) :
  (forall a, p a = true) -> filter p l = l.
Proof.
  intros H. induction l as [|a l IH]; simpl; [reflexivity|].
  now rewrite H, IH.
Qed.

Lemma count_true_false (l : list bool) :
  count true l + count false l = length l.
Proof.
  unfold count. induction l as [|[|] l IH]; simpl; lia.
Qed.

(** [all_succeed] is the conjunction of the single updates, each taken
    after the requests before it. *)
Lemma all_succeed_iff h reqs :
  all_succeed env h reqs = true <->
  forall i req, nth_error reqs i = Some req ->
    update_succeeds env (h ++ map Patch (firstn i reqs)) req = true.
Proof.
  revert h. induction reqs as [|q reqs IH]; intros h; simpl.
  - split; [intros _ [|i] req; discriminate | reflexivity].
  - rewrite andb_true_iff, IH. split.
    + intros [Hq Hrest] [|i] req; simpl.
      * intros [= <-]. now rewrite app_nil_r.
      * intros Hi. specialize (Hrest i req Hi).
        now rewrite <- app_assoc in Hrest.
    + intros H. split.
      * specialize (H 0 q eq_refl). simpl in H. now rewrite app_nil_r in H.
      * intros i req Hi. specialize (H (S i) req Hi). simpl in H.
        now rewrite <- app_assoc.
Qed.

Lemma outcomes_length self properties h repos :
  length (outcomes env self properties h repos) = length repos.
Proof.
  revert h. induction repos as [|r repos IH]; intros h; simpl;
    [reflexivity | now rewrite IH].
Qed.

(** The entry of [outcomes] for the [i]-th repository: its updates, sent
    after those of the repositories before it. *)
Lemma outcomes_nth self properties h repos i repo :
  nth_error repos i = Some repo ->
  nth_error (outcomes env self properties h repos) i
  = Some (all_succeed env
            (h ++ map Patch (flat_map (requests_for self properties) (firstn i repos)))
            (requests_for self properties repo)).
Proof.
  revert h i. induction repos as [|r repos IH]; intros h [|i]; simpl;
    try discriminate.
  - intros [= <-]. now rewrite app_nil_r.
  - intros Hi. rewrite (IH _ _ Hi). now rewrite map_app, app_assoc.
Qed.

End Driver.

(** * The batch driver: counters, filter, dry run, classification *)

(** C1.  Whatever the listing returns, the property set, the filter and
    the dry-run setting, the driver returns counters, and success +
    failed + skipped is the number of repositories the filter keeps:
    each of them is counted once. *)
Theorem counters_sum_to_selected (env : Env) self properties dry_run
  repo_filter st repos st1 :
  get_all_repos env self st = (Ret repos, st1) ->
  exists results st2,
    set_properties_on_all_repos env self properties dry_run repo_filter st
    = (Ret results, st2)
    /\ success results + failed results + skipped results
       = length (selected repo_filter repos).
Proof.
  intros H.
  destruct (driver_after_listing env self properties dry_run repo_filter _ _ _ H)
    as [entries ->].
  destruct dry_run.
  - destruct (for_repos_dry_run env self properties (selected repo_filter repos)
                {| success := 0; failed := 0; skipped := 0 |}
                (grown st1 entries [] (debug st1))) as [e ->].
    eexists _, _. split; [reflexivity | reflexivity].
  - destruct (for_repos_real_run env self properties (selected repo_filter repos)
                {| success := 0; failed := 0; skipped := 0 |}
                (grown st1 entries [] (debug st1))) as [e ->].
    eexists _, _. split; [reflexivity|]. simpl.
    rewrite count_true_false, Nat.add_0_r. apply outcomes_length.
Qed.

Lemma counters_sum_to_selected_witness :
  exists results st2,
    set_properties_on_all_repos Sample.world Sample.setter Sample.properties
      false (Some "FRONT") Sample.connected
    = (Ret results, st2)
    /\ success results + failed results + skipped results
       = length (selected (Some "FRONT") [Sample.web; Sample.api; Sample.docs]).
Proof.
  eapply (counters_sum_to_selected Sample.world Sample.setter).
  reflexivity.
Defined.

(** C2.  The driver runs its loop over exactly the listed repositories
    whose short name contains the filter case-insensitively, in the order
    of the listing: for any test [p] that decides this, the loop runs over
    [filter p repos]; without a filter that is the whole list. *)
Theorem filter_selects_matching (env : Env) self properties dry_run
  repo_filter st repos st1 (p : Repository.t -> bool) :
  get_all_repos env self st = (Ret repos, st1) ->
  (forall r, p r = true <->
             match repo_filter with
             | Some f => contains_ignoring_case (Repository.name r) f
             | None => True
             end) ->
  selected repo_filter repos = filter p repos
  /\ (repo_filter = None -> filter p repos = repos)
  /\ exists entries,
       set_properties_on_all_repos env self properties dry_run repo_filter st
       = for_repos env self properties dry_run (filter p repos)
           {| success := 0; failed := 0; skipped := 0 |}
           (grown st1 entries [] (debug st1)).
Proof.
  intros H Hp.
  pose proof (filter_all p repos) as Hall.
  assert (Hsel : selected repo_filter repos = filter p repos).
  { unfold selected. destruct repo_filter as [f|].
    - destruct (PyStr.truthy f) eqn:T.
      + unfold matching. apply filter_ext. intros r.
        apply eq_true_iff_eq. rewrite Hp. apply contains_lower_iff.
      + destruct f; [|discriminate]. symmetry. apply Hall.
        intros r. apply Hp. now exists ""%string, ""%string, (Repository.name r).
    - symmetry. apply Hall. intros r. now apply Hp. }
  split; [exact Hsel|]. split.
  - intros ->. apply Hall. intros r. now apply Hp.
  - rewrite <- Hsel. now apply driver_after_listing.
Qed.

Lemma filter_selects_matching_witness :
  selected (Some "FRONT") [Sample.web; Sample.api; Sample.docs]
  = [Sample.web; Sample.docs]
  /\ exists entries,
       set_properties_on_all_repos Sample.world Sample.setter Sample.properties
         true (Some "FRONT") Sample.connected
       = for_repos Sample.world Sample.setter Sample.properties true
           [Sample.web; Sample.docs]
           {| success := 0; failed := 0; skipped := 0 |}
           (grown (grown Sample.connected [(INFO, FoundRepos 3 "acme")]
                     [GetRepos Sample.acme] false)
                  entries [] false).
Proof.
  destruct (filter_selects_matching Sample.world Sample.setter Sample.properties
              true (Some "FRONT") Sample.connected
              [Sample.web; Sample.api; Sample.docs]
              (grown Sample.connected [(INFO, FoundRepos 3 "acme")]
                 [GetRepos Sample.acme] false)
              (fun r => PyStr.contains (PyStr.lower (Repository.name r))
                                       (PyStr.lower "FRONT")))
    as (Hsel & _ & Hrun).
  - reflexivity.
  - intros r. apply contains_lower_iff.
  - split; [exact Hsel | exact Hrun].
Defined.

(** C3.  In a dry run the driver sends no update at all, whatever the
    listing does; and when the listing returns, the driver returns
    success = 0, failed = 0 and skipped = the number of repositories the
    filter keeps, having sent nothing after the listing. *)
Theorem dry_run_sends_no_update (env : Env) self properties repo_filter st :
  patches (calls (snd (set_properties_on_all_repos env self properties true
                         repo_filter st)))
  = patches (calls st)
  /\ forall repos st1,
       get_all_repos env self st = (Ret repos, st1) ->
       exists st2,
         set_properties_on_all_repos env self properties true repo_filter st
         = (Ret {| success := 0; failed := 0;
                   skipped := length (selected repo_filter repos) |}, st2)
         /\ calls st2 = calls st1.
Proof.
  assert (Hret : forall repos st1,
             get_all_repos env self st = (Ret repos, st1) ->
             exists st2,
               set_properties_on_all_repos env self properties true repo_filter st
               = (Ret {| success := 0; failed := 0;
                         skipped := length (selected repo_filter repos) |}, st2)
               /\ calls st2 = calls st1).
  { intros repos st1 H.
    destruct (driver_after_listing env self properties true repo_filter _ _ _ H)
      as [entries ->].
    destruct (for_repos_dry_run env self properties (selected repo_filter repos)
                {| success := 0; failed := 0; skipped := 0 |}
                (grown st1 entries [] (debug st1))) as [e ->].
    eexists. split; [reflexivity|]. simpl. now rewrite !app_nil_r. }
  split; [|exact Hret].
  pose proof (get_all_repos_patches env self st) as Hp.
  destruct (get_all_repos env self st) as [[repos|c|e] st1] eqn:H.
  - destruct (Hret repos st1 eq_refl) as (st2 & -> & Hc). simpl in *.
    now rewrite Hc.
  - now elim (get_all_repos_no_exit env self st c st1).
  - now rewrite (driver_listing_raises env self properties true repo_filter _ _ _ H).
Qed.

Lemma dry_run_sends_no_update_witness :
  exists st2,
    set_properties_on_all_repos Sample.world Sample.setter Sample.properties
      true (Some "front") Sample.connected
    = (Ret {| success := 0; failed := 0; skipped := 2 |}, st2)
    /\ calls st2 = [GetOrganization "t0k3n" "acme"; GetRepos Sample.acme].
Proof.
  apply (proj2 (dry_run_sends_no_update Sample.world Sample.setter
                  Sample.properties (Some "front") Sample.connected)
               [Sample.web; Sample.api; Sample.docs]
               (grown Sample.connected [(INFO, FoundRepos 3 "acme")]
                  [GetRepos Sample.acme] false)).
  reflexivity.
Defined.

(** C4.  In a real run, every repository the filter keeps gets one update
    request for every item of the property set, in order and whatever the
    earlier answers were, and nothing else is sent (no request undoes an
    earlier one); a repository counts as succeeded when all its updates
    succeed and as failed otherwise.  With three repositories of which
    the first and the third succeed and the second does not, the result
    is success = 2, failed = 1, skipped = 0. *)
Theorem real_run_classifies (env : Env) self properties repo_filter st repos st1 :
  get_all_repos env self st = (Ret repos, st1) ->
  let sel := selected repo_filter repos in
  let outs := outcomes env self properties (calls st1) sel in
  exists st2,
    set_properties_on_all_repos env self properties false repo_filter st
    = (Ret {| success := count true outs; failed := count false outs;
              skipped := 0 |}, st2)
    /\ calls st2
       = calls st1 ++ map Patch (flat_map (requests_for self properties) sel)
    /\ (outs = [true; false; true] ->
        set_properties_on_all_repos env self properties false repo_filter st
        = (Ret {| success := 2; failed := 1; skipped := 0 |}, st2)).
Proof.
  intros H sel outs. subst sel outs.
  destruct (driver_after_listing env self properties false repo_filter _ _ _ H)
    as [entries ->].
  destruct (for_repos_real_run env self properties (selected repo_filter repos)
              {| success := 0; failed := 0; skipped := 0 |}
              (grown st1 entries [] (debug st1))) as [e He].
  assert (Hc : calls (grown st1 entries [] (debug st1)) = calls st1)
    by (simpl; apply app_nil_r).
  rewrite Hc in He. rewrite He.
  eexists. split; [reflexivity|]. split.
  - simpl. now rewrite app_nil_r.
  - intros ->. reflexivity.
Qed.

Lemma real_run_classifies_witness :
  exists st2,
    set_properties_on_all_repos Sample.world Sample.setter Sample.properties
      false None Sample.connected
    = (Ret {| success := 2; failed := 1; skipped := 0 |}, st2)
    /\ patches (calls st2)
       = [patch_request Sample.setter Sample.web "team" "backend";
          patch_request Sample.setter Sample.web "env" "prod";
          patch_request Sample.setter Sample.api "team" "backend";
          patch_request Sample.setter Sample.api "env" "prod";
          patch_request Sample.setter Sample.docs "team" "backend";
          patch_request Sample.setter Sample.docs "env" "prod"].
Proof.
  destruct (real_run_classifies Sample.world Sample.setter Sample.properties
              None Sample.connected
              [Sample.web; Sample.api; Sample.docs]
              (grown Sample.connected [(INFO, FoundRepos 3 "acme")]
                 [GetRepos Sample.acme] false)
              eq_refl)
    as (st2 & _ & Hcalls & Hthree).
  exists st2. split.
  - apply Hthree. reflexivity.
  - rewrite Hcalls. reflexivity.
Defined.

(** * The script reads neither its log nor its level *)

Ltac blind_step :=
  first
    [ apply log_blind_ret | apply log_blind_sys_exit | apply log_blind_raise
    | apply log_blind_emit | apply log_blind_setLevel | apply log_blind_remote
    | apply log_blind_bind | apply log_blind_try_except
    | match goal with
      | |- log_blind (if ?b then _ else _) => destruct b
      | |- log_blind (match ?x with _ => _ end) => destruct x
      | |- log_blind (let '(_, _) := ?x in _) => destruct x
      | H : Some _ = Some _ |- _ => injection H as <-
      | H : None = Some _ |- _ => discriminate H
      | H : match ?e with _ => _ end = Some _ |- _ => destruct e
      end
    | progress intros
    | assumption ].

Ltac blind := unfold logger_info, logger_error; repeat blind_step.

Section Blind.

Variable env : Env.

Lemma log_blind_validate_connection self :
  log_blind (validate_connection env self).
Proof. unfold validate_connection. blind. Qed.

Lemma log_blind_get_all_repos self : log_blind (get_all_repos env self).
Proof. unfold get_all_repos, org_get_repos. blind. Qed.

Lemma log_blind_set_custom_property self repo n v :
  log_blind (set_custom_property env self repo n v).
Proof. unfold set_custom_property, raise_for_status. blind. Qed.

Lemma log_blind_log_items items : log_blind (log_items items).
Proof. induction items as [|[n v] items IH]; simpl; blind. Qed.

Lemma log_blind_apply_items self repo items success :
  log_blind (apply_items env self repo items success).
Proof.
  revert success. induction items as [|[n v] items IH]; intros success; simpl.
  - blind.
  - apply log_blind_bind; [apply log_blind_set_custom_property | intros ok; apply IH].
Qed.

Lemma log_blind_for_repos self properties dry_run repos results :
  log_blind (for_repos env self properties dry_run repos results).
Proof.
  revert results. induction repos as [|repo repos IH]; intros results; simpl.
  - blind.
  - apply log_blind_bind; [|intros r; apply IH].
    destruct dry_run.
    + pose proof (log_blind_log_items (Dict.items properties)). blind.
    + apply log_blind_bind; [apply log_blind_apply_items | blind].
Qed.

Lemma log_blind_driver self properties dry_run repo_filter :
  log_blind (set_properties_on_all_repos env self properties dry_run repo_filter).
Proof.
  unfold set_properties_on_all_repos.
  apply log_blind_bind; [apply log_blind_get_all_repos | intros repos].
  apply log_blind_bind; [blind | intros repos'].
  apply log_blind_bind; [blind | intros _].
  apply log_blind_for_repos.
Qed.

Lemma log_blind_load_properties file_path :
  log_blind (load_properties_from_file env file_path).
Proof.
  unfold load_properties_from_file. apply log_blind_try_except.
  - intros st st' H. now destruct (json_file env file_path).
  - blind.
Qed.

Lemma log_blind_parse_properties props properties :
  log_blind (parse_properties props properties).
Proof.
  revert properties. induction props as [|prop props IH]; intros properties; simpl.
  - blind.
  - destruct (negb (PyStr.truthy (PyStr.strip prop))); [blind|].
    destruct (negb (PyStr.has_char "=" (PyStr.strip prop))); [blind|].
    destruct (PyStr.split1 "=" (PyStr.strip prop)) as [|a [|b [|c l]]]; try solve [blind].
    destruct (negb (PyStr.truthy (PyStr.strip a))); [blind | apply IH].
Qed.

Lemma log_blind_read_properties args : log_blind (read_properties env args).
Proof.
  unfold read_properties. apply log_blind_bind.
  - destruct (arg_properties_file args) as [f|]; [|blind].
    destruct (PyStr.truthy f); [apply log_blind_load_properties | blind].
  - intros d. destruct (arg_properties args) as [[|p l]|]; try solve [blind].
    apply log_blind_parse_properties.
Qed.

End Blind.

(** * Facts about the parsing of the property arguments *)

Lemma truthy_iff (s : string) : PyStr.truthy s = true <-> s <> ""%string.
Proof. destruct s; simpl; split; congruence. Qed.

Lemma truthy_append_char (a b : string) (c : ascii) :
  PyStr.truthy (a ++ String c b) = true.
Proof. now destruct a. Qed.

(** An argument assigns at most one value, to at most one name. *)
Lemma assigns_functional prop name value name' value' :
  assigns prop name value -> assigns prop name' value' ->
  name = name' /\ value = value'.
Proof.
  intros (a & b & E & Ha & -> & ->) (a' & b' & E' & Ha' & -> & ->).
  pose proof (split1_first "=" a b Ha) as S.
  pose proof (split1_first "=" a' b' Ha') as S'.
  rewrite <- E in S. rewrite <- E' in S'. rewrite S in S'.
  injection S' as -> ->. now split.
Qed.

(** An argument with an ['='] assigns something. *)
Lemma assigns_some prop :
  PyStr.has_char "=" (PyStr.strip prop) = true ->
  exists name value, assigns prop name value.
Proof.
  intros H. destruct (split1_found _ _ H) as (a & b & _ & E & Ha).
  exists (PyStr.strip a), (PyStr.strip b), a, b. now repeat split.
Qed.

Lemma assigns_has_char prop name value :
  assigns prop name value -> PyStr.has_char "=" (PyStr.strip prop) = true.
Proof.
  intros (a & b & -> & _). rewrite has_char_append. simpl.
  now rewrite orb_true_r.
Qed.

(** The argument that assigns [value] to a non-empty [name] is accepted:
    the loop goes on with [properties[name] = value] done. *)
Lemma parse_properties_accepts prop rest name value d st :
  assigns prop name value -> name <> ""%string ->
  parse_properties (prop :: rest) d st
  = parse_properties rest (Dict.set name value d) st.
Proof.
  intros A Hn. pose proof (assigns_has_char _ _ _ A) as Hc.
  destruct A as (a & b & E & Ha & -> & ->).
  assert (T : PyStr.truthy (PyStr.strip prop) = true)
    by (rewrite E; apply truthy_append_char).
  assert (S : PyStr.split1 "=" (PyStr.strip prop) = [a; b])
    by (rewrite E; now apply split1_first).
  apply truthy_iff in Hn.
  simpl. now rewrite Hc, T, S, Hn.
Qed.

(** An argument without ['='] (empty, or with a name only) ends the run
    with code 1. *)
Lemma parse_properties_rejects_no_equals prop rest d st :
  PyStr.has_char "=" (PyStr.strip prop) = false ->
  exists m, parse_properties (prop :: rest) d st
            = (SysExit 1, grown st [(ERROR, m)] [] (debug st)).
Proof.
  intros Hc. simpl. rewrite Hc.
  destruct (PyStr.truthy (PyStr.strip prop)); simpl;
    unfold bind, logger_error; rewrite emit_run; eexists; reflexivity.
Qed.

(** An argument with an empty name ends the run with code 1. *)
Lemma parse_properties_rejects_empty_name prop rest value d st :
  assigns prop "" value ->
  parse_properties (prop :: rest) d st
  = (SysExit 1,
     grown st [(ERROR, EmptyName (PyStr.strip prop))] [] (debug st)).
Proof.
  intros A. pose proof (assigns_has_char _ _ _ A) as Hc.
  destruct A as (a & b & E & Ha & Hn & ->).
  assert (T : PyStr.truthy (PyStr.strip prop) = true)
    by (rewrite E; apply truthy_append_char).
  assert (S : PyStr.split1 "=" (PyStr.strip prop) = [a; b])
    by (rewrite E; now apply split1_first).
  simpl. rewrite Hc, T, S, <- Hn. simpl.
  unfold bind, logger_error. now rewrite emit_run.
Qed.

(** The three ways one round of the loop can go. *)
Lemma parse_properties_step prop rest d st :
  (exists name value,
      assigns prop name value /\ name <> ""%string
      /\ parse_properties (prop :: rest) d st
         = parse_properties rest (Dict.set name value d) st)
  \/ (exists m,
        parse_properties (prop :: rest) d st
        = (SysExit 1, grown st [(ERROR, m)] [] (debug st))).
Proof.
  destruct (PyStr.has_char "=" (PyStr.strip prop)) eqn:Hc.
  - destruct (assigns_some _ Hc) as (name & value & A).
    destruct (string_dec name "") as [->|Hn].
    + right. eexists. now apply (parse_properties_rejects_empty_name _ _ value).
    + left. exists name, value. repeat split; auto.
      now apply parse_properties_accepts.
  - right. now apply parse_properties_rejects_no_equals.
Qed.

(** The loop returns a dictionary or leaves with code 1; it sends
    nothing, and a dictionary it returns after at least one round is not
    empty. *)
Lemma parse_properties_run props d st :
  exists entries,
    (exists d', parse_properties props d st
                = (Ret d', grown st entries [] (debug st))
                /\ (props <> [] -> Dict.truthy d' = true))
    \/ parse_properties props d st
       = (SysExit 1, grown st entries [] (debug st)).
Proof.
  assert (G : forall props d st,
             exists entries,
               (exists d', parse_properties props d st
                           = (Ret d', grown st entries [] (debug st))
                           /\ (Dict.truthy d = true \/ props <> []
                               -> Dict.truthy d' = true))
               \/ parse_properties props d st
                  = (SysExit 1, grown st entries [] (debug st))).
  { clear. induction props as [|prop rest IH]; intros d st.
    - exists []. left. exists d. simpl. unfold ret. rewrite grown_nothing.
      split; [reflexivity|]. now intros [H|H].
    - destruct (parse_properties_step prop rest d st)
        as [(name & value & _ & _ & ->) | (m & ->)].
      + destruct (IH (Dict.set name value d) st) as [entries [(d' & -> & Hd) | ->]].
        * exists entries. left. exists d'. split; [reflexivity|].
          intros _. apply Hd. left. apply dict_set_truthy.
        * exists entries. now right.
      + eexists. right. reflexivity. }
  destruct (G props d st) as [entries [(d' & E & Hd) | E]]; exists entries.
  - left. exists d'. split; [exact E | intros H; apply Hd; now right].
  - now right.
Qed.

(** A returned dictionary holds, for a name, the value of the last
    argument that assigns to it. *)
Lemma parse_properties_last before prop after name value d st d' st' :
  assigns prop name value ->
  (forall p v, In p after -> ~ assigns p name v) ->
  parse_properties (before ++ prop :: after) d st = (Ret d', st') ->
  Dict.get name d' = Some value.
Proof.
  intros A Hafter.
  assert (Hkeep : forall after d,
             (forall p v, In p after -> ~ assigns p name v) ->
             parse_properties after d st = (Ret d', st') ->
             Dict.get name d' = Dict.get name d).
  { clear. induction after as [|p after IH]; intros d Hn E.
    - simpl in E. now injection E as <- _.
    - destruct (parse_properties_step p after d st)
        as [(n & v & Ap & _ & Ep) | (m & Ep)]; rewrite Ep in E;
        [|discriminate].
      rewrite (IH _ (fun q w Hq => Hn q w (or_intror Hq)) E).
      apply dict_get_set_other. intros ->.
      apply (Hn p v); [now left | exact Ap]. }
  revert d. induction before as [|q before IH]; intros d E; cbn [app] in E.
  - destruct (parse_properties_step prop after d st)
      as [(n & v & Ap & _ & Ep) | (m & Ep)]; rewrite Ep in E; [|discriminate].
    destruct (assigns_functional _ _ _ _ _ A Ap) as [<- <-].
    rewrite (Hkeep _ _ Hafter E). apply dict_get_set_same.
  - destruct (parse_properties_step q (before ++ prop :: after) d st)
      as [(n & v & _ & _ & Ep) | (m & Ep)]; rewrite Ep in E; [|discriminate].
    now apply (IH _ E).
Qed.

(** A name no argument assigns to keeps the value it had before the
    loop (the one of the properties file, if any). *)
Lemma parse_properties_untouched props name d st d' st' :
  (forall p v, In p props -> ~ assigns p name v) ->
  parse_properties props d st = (Ret d', st') ->
  Dict.get name d' = Dict.get name d.
Proof.
  revert d. induction props as [|p props IH]; intros d Hn E.
  - simpl in E. now injection E as <- _.
  - destruct (parse_properties_step p props d st)
      as [(n & v & Ap & _ & Ep) | (m & Ep)]; rewrite Ep in E; [|discriminate].
    rewrite (IH _ (fun q w Hq => Hn q w (or_intror Hq)) E).
    apply dict_get_set_other. intros ->.
    apply (Hn p v); [now left | exact Ap].
Qed.

(** * Facts about [main] *)

Section Main.

Variable env : Env.

Lemma remote_run {A} (c : NetCall) (answer : list NetCall -> reply A) st :
  remote c answer st
  = (match answer (calls st) with
     | Returns a => Ret a
     | Raises e => Raise e
     end,
     grown st [] [c] (debug st)).
Proof.
  unfold remote, grown. rewrite app_nil_r. now destruct (answer (calls st)).
Qed.

(** What [validate_connection] does with each answer. *)
Lemma validate_connection_cases self st :
  let call := GetOrganization (github_auth self) (org_name self) in
  match github_get_organization env (calls st) (github_auth self) (org_name self) with
  | Returns o =>
      validate_connection env self st
      = (Ret (true, {| github_auth := github_auth self; token := token self;
                       org_name := org_name self; org := Some o |}),
         grown st [(INFO, ConnectedTo (org_name self))] [call] (debug st))
  | Raises (GithubException status msg) =>
      validate_connection env self st
      = (Ret (false, self),
         grown st [(ERROR, ConnectFailed (org_name self) (GithubException status msg))]
           [call] (debug st))
  | Raises e =>
      validate_connection env self st = (Raise e, grown st [] [call] (debug st))
  end.
Proof.
  unfold validate_connection, try_except, bind, remote, grown.
  destruct (github_get_organization env (calls st) (github_auth self) (org_name self))
    as [o|e]; simpl.
  - reflexivity.
  - destruct e; simpl; rewrite ?app_nil_r; reflexivity.
Qed.

Lemma load_properties_run file_path st :
  match json_file env file_path with
  | Returns d => load_properties_from_file env file_path st = (Ret d, st)
  | Raises e =>
      load_properties_from_file env file_path st
      = (SysExit 1, grown st [(ERROR, LoadFailed file_path e)] [] (debug st))
  end.
Proof.
  unfold load_properties_from_file, try_except, bind, logger_error.
  destruct (json_file env file_path); [reflexivity|]. now rewrite emit_run.
Qed.

(** Building the property set sends nothing; it returns a dictionary or
    leaves with code 1. *)
Lemma read_properties_run args st :
  exists entries,
    (exists d, read_properties env args st
               = (Ret d, grown st entries [] (debug st)))
    \/ read_properties env args st
       = (SysExit 1, grown st entries [] (debug st)).
Proof.
  unfold read_properties, bind.
  assert (L : exists e1,
             (exists d, (match arg_properties_file args with
                         | Some file_path =>
                             if PyStr.truthy file_path
                             then load_properties_from_file env file_path
                             else ret Dict.empty
                         | None => ret Dict.empty
                         end) st = (Ret d, grown st e1 [] (debug st)))
             \/ (match arg_properties_file args with
                 | Some file_path =>
                     if PyStr.truthy file_path
                     then load_properties_from_file env file_path
                     else ret Dict.empty
                 | None => ret Dict.empty
                 end) st = (SysExit 1, grown st e1 [] (debug st))).
  { destruct (arg_properties_file args) as [f|].
    - destruct (PyStr.truthy f).
      + pose proof (load_properties_run f st) as H.
        destruct (json_file env f) as [d|e].
        * exists []. left. exists d. now rewrite grown_nothing.
        * eexists. right. exact H.
      + exists []. left. exists Dict.empty. unfold ret. now rewrite grown_nothing.
    - exists []. left. exists Dict.empty. unfold ret. now rewrite grown_nothing. }
  destruct L as [e1 [[d ->] | ->]].
  - destruct (arg_properties args) as [[|p l]|].
    + exists e1. left. now exists d.
    + destruct (parse_properties_run (p :: l) d (grown st e1 [] (debug st)))
        as [e2 [(d' & -> & _) | ->]]; rewrite grown_again; simpl;
        exists (e1 ++ e2); [left; now exists d' | now right].
    + exists e1. left. now exists d.
  - exists e1. now right.
Qed.

(** With at least one [--property] argument the property set, when one
    is returned, is not empty. *)
Lemma read_properties_truthy args st p l d st' :
  arg_properties args = Some (p :: l) ->
  read_properties env args st = (Ret d, st') ->
  Dict.truthy d = true.
Proof.
  intros Hp. unfold read_properties, bind. rewrite Hp.
  match goal with |- context [let (_, _) := ?m in _] =>
    destruct m as [[d0|c|e] s0] end; try discriminate.
  destruct (parse_properties_run (p :: l) d0 s0) as [e2 [(d' & -> & Hd) | ->]];
    [|discriminate].
  intros [= <- _]. now apply Hd.
Qed.

(** One step of a sequence. *)
Lemma bind_ret_step {A B} (m : M A) (k : A -> M B) st a st1 :
  m st = (Ret a, st1) -> bind m k st = k a st1.
Proof. intros H. unfold bind. now rewrite H. Qed.

Lemma bind_exit_step {A B} (m : M A) (k : A -> M B) st c st1 :
  m st = (SysExit c, st1) -> bind m k st = (SysExit c, st1).
Proof. intros H. unfold bind. now rewrite H. Qed.

Lemma bind_raise_step {A B} (m : M A) (k : A -> M B) st e st1 :
  m st = (Raise e, st1) -> bind m k st = (Raise e, st1).
Proof. intros H. unfold bind. now rewrite H. Qed.

(** The level switch of [main]. *)
Lemma verbose_run args st :
  (if arg_verbose args then logger_setLevel_DEBUG else ret tt) st
  = (Ret tt, grown st [] [] (arg_verbose args || debug st)).
Proof.
  destruct (arg_verbose args); simpl.
  - unfold logger_setLevel_DEBUG, grown. now rewrite !app_nil_r.
  - unfold ret. now rewrite grown_nothing.
Qed.

(** Every way [prepare] can end, read off the token, the property
    sources and the answer to the connection attempt. *)
Lemma prepare_cases args st :
  let tok := token_of args in
  let lvl := arg_verbose args || debug st in
  let call := GetOrganization tok (arg_org args) in
  exists entries,
    if opt_truthy (arg_token args) then
      match fst (read_properties env args st) with
      | Ret d =>
          if Dict.truthy d then
            match github_get_organization env (calls st) tok (arg_org args) with
            | Returns o =>
                prepare env args st
                = (Ret ({| github_auth := tok; token := tok;
                           org_name := arg_org args; org := Some o |}, d),
                   grown st entries [call] lvl)
            | Raises (GithubException _ _) =>
                prepare env args st = (SysExit 1, grown st entries [call] lvl)
            | Raises e =>
                prepare env args st = (Raise e, grown st entries [call] lvl)
            end
          else prepare env args st
               = (SysExit 1, grown st (entries ++ [(ERROR, NoProperties)]) [] lvl)
      | SysExit _ => prepare env args st = (SysExit 1, grown st entries [] lvl)
      | Raise e => prepare env args st = (Raise e, grown st entries [] lvl)
      end
    else prepare env args st
         = (SysExit 1, grown st (entries ++ [(ERROR, TokenRequired)]) [] lvl).
Proof.
  intros tok lvl call.
  pose proof (verbose_run args st) as V. fold lvl in V.
  destruct (opt_truthy (arg_token args)) eqn:T.
  2:{ unfold prepare. rewrite (bind_ret_step _ _ _ _ _ V), T. simpl negb. cbv iota.
      unfold bind, logger_error. rewrite emit_run, grown_again. simpl.
      exists []. reflexivity. }
  destruct (log_blind_read_properties env args st (grown st [] [] lvl)) as [F _].
  { simpl. now rewrite app_nil_r. }
  rewrite F. clear F.
  assert (P : forall k : Dict.t -> M (CustomPropertySetter * Dict.t),
             prepare env args st
             = bind (read_properties env args)
                 (fun properties =>
                    bind (if negb (Dict.truthy properties)
                          then bind (logger_error NoProperties) (fun _ => sys_exit 1)
                          else ret tt)
                      (fun _ =>
                         bind (logger_info (PropertiesToSet properties))
                           (fun _ =>
                              bind (validate_connection env (init tok (arg_org args)))
                                (fun r =>
                                   let '(connected, setter) := r in
                                   bind (if negb connected then sys_exit 1 else ret tt)
                                     (fun _ => ret (setter, properties))))))
                 (grown st [] [] lvl)).
  { intros _. unfold prepare. rewrite (bind_ret_step _ _ _ _ _ V), T. simpl negb.
    cbv iota. now rewrite (bind_ret_step _ _ _ tt _ eq_refl). }
  rewrite (P (fun _ => ret (init tok "", []))). clear P.
  destruct (read_properties_run args (grown st [] [] lvl)) as [e1 [[d E] | E]];
    rewrite E; simpl fst; cbv iota; rewrite grown_again in E; simpl app in E.
  2:{ rewrite (bind_exit_step _ _ _ _ _ E). eexists. reflexivity. }
  rewrite (bind_ret_step _ _ _ _ _ E).
  destruct (Dict.truthy d); simpl negb; cbv iota.
  2:{ unfold bind, logger_error. rewrite emit_run, grown_again. simpl.
      exists e1. reflexivity. }
  rewrite (bind_ret_step _ _ _ tt _ eq_refl).
  unfold logger_info. rewrite (bind_ret_step _ _ _ _ _ (emit_run _ _ _)).
  rewrite grown_again. simpl app. simpl debug.
  pose proof (validate_connection_cases (init tok (arg_org args))
                (grown st (e1 ++ [(INFO, PropertiesToSet d)]) [] lvl)) as C.
  simpl in C. rewrite app_nil_r in C. fold call in C.
  destruct (github_get_organization env (calls st) tok (arg_org args)) as [o|e].
  - rewrite (bind_ret_step _ _ _ _ _ C). simpl negb. cbv iota.
    rewrite (bind_ret_step _ _ _ tt _ eq_refl). unfold ret.
    rewrite grown_again. simpl. eexists. reflexivity.
  - destruct e;
      [ rewrite (bind_ret_step _ _ _ _ _ C); simpl negb; cbv iota;
        unfold bind, sys_exit; rewrite grown_again; simpl; eexists; reflexivity
      | rewrite (bind_raise_step _ _ _ _ _ C), grown_again; simpl;
        eexists; reflexivity .. ].
Qed.
Lemma summary_run args results st :
  exists entries,
    summary args results st
    = (ending (Ret results), grown st entries [] (debug st)).
Proof.
  unfold summary, logger_info.
  rewrite (bind_ret_step _ _ _ _ _ (emit_run _ _ _)).
  rewrite (bind_ret_step _ _ _ _ _ (emit_run _ _ _)).
  rewrite (bind_ret_step _ _ _ _ _ (emit_run _ _ _)).
  rewrite !grown_again. simpl app. simpl debug.
  assert (S : exists e1,
             (if arg_dry_run args
              then emit INFO (WouldUpdate (skipped results))
              else bind (emit INFO (Updated (success results)))
                     (fun _ => emit INFO (FailedToUpdate (failed results))))
               (grown st [(INFO, BlankLineAndRule); (INFO, SummaryTitle); (INFO, Rule)]
                  [] (debug st))
             = (Ret tt, grown st e1 [] (debug st))).
  { destruct (arg_dry_run args).
    - rewrite emit_run, grown_again. eexists. reflexivity.
    - rewrite (bind_ret_step _ _ _ _ _ (emit_run _ _ _)), emit_run, !grown_again.
      eexists. reflexivity. }
  destruct S as [e1 S]. rewrite (bind_ret_step _ _ _ _ _ S).
  exists e1. simpl. now destruct (0 <? failed results)%nat.
Qed.

(** The end of a run whose preparation went through. *)
Lemma main_after_prepare args st setter d st1 :
  prepare env args st = (Ret (setter, d), st1) ->
  fst (main env args st)
  = ending (fst (set_properties_on_all_repos env setter d
                   (arg_dry_run args) (arg_filter args) st1))
  /\ calls (snd (main env args st))
     = calls (snd (set_properties_on_all_repos env setter d
                     (arg_dry_run args) (arg_filter args) st1)).
Proof.
  intros P. unfold main. rewrite (bind_ret_step _ _ _ _ _ P).
  unfold bind.
  destruct (set_properties_on_all_repos env setter d (arg_dry_run args)
              (arg_filter args) st1) as [[results|c|e] st2]; simpl; auto.
  destruct (summary_run args results st2) as [entries ->]. simpl.
  split; [reflexivity | apply app_nil_r].
Qed.

(** Every way a run can end, read off the token, the property sources,
    the answer to the connection attempt and the driver. *)
Lemma run_cases args :
  let call := GetOrganization (token_of args) (arg_org args) in
  let final := snd (run env args) in
  if opt_truthy (arg_token args) then
    match fst (read_properties env args initial) with
    | Ret d =>
        if Dict.truthy d then
          match github_get_organization env [] (token_of args) (arg_org args) with
          | Returns o =>
              fst (run env args)
              = ending (fst (set_properties_on_all_repos env (connected_setter args o) d
                               (arg_dry_run args) (arg_filter args)
                               (after_connection args)))
              /\ calls final
                 = calls (snd (set_properties_on_all_repos env (connected_setter args o) d
                                 (arg_dry_run args) (arg_filter args)
                                 (after_connection args)))
          | Raises (GithubException _ _) =>
              fst (run env args) = SysExit 1 /\ calls final = [call]
          | Raises e =>
              fst (run env args) = Raise e /\ calls final = [call]
          end
        else
          fst (run env args) = SysExit 1 /\ calls final = []
          /\ exists entries, log final = entries ++ [(ERROR, NoProperties)]
    | SysExit _ => fst (run env args) = SysExit 1 /\ calls final = []
    | Raise e => fst (run env args) = Raise e /\ calls final = []
    end
  else
    fst (run env args) = SysExit 1 /\ calls final = []
    /\ exists entries, log final = entries ++ [(ERROR, TokenRequired)].
Proof.
  intros call final. subst final. unfold run.
  destruct (prepare_cases args initial) as [entries P].
  fold call in P. change (calls initial) with (@nil NetCall) in P.
  destruct (opt_truthy (arg_token args)).
  2:{ unfold main. rewrite (bind_exit_step _ _ _ _ _ P). simpl.
      repeat split. now exists entries. }
  destruct (fst (read_properties env args initial)) as [d|c|e].
  - destruct (Dict.truthy d).
    + destruct (github_get_organization env [] (token_of args) (arg_org args))
        as [o|e].
      * destruct (main_after_prepare _ _ _ _ _ P) as [F C]. rewrite F, C.
        fold (connected_setter args o).
        destruct (log_blind_driver env (connected_setter args o) d
                    (arg_dry_run args) (arg_filter args)
                    (grown initial entries [call] (arg_verbose args || debug initial))
                    (after_connection args) eq_refl) as [-> ->].
        now split.
      * destruct e; unfold main;
          [ rewrite (bind_exit_step _ _ _ _ _ P)
          | rewrite (bind_raise_step _ _ _ _ _ P) .. ]; now split.
    + unfold main. rewrite (bind_exit_step _ _ _ _ _ P). simpl.
      repeat split. now exists entries.
  - unfold main. rewrite (bind_exit_step _ _ _ _ _ P). now split.
  - unfold main. rewrite (bind_raise_step _ _ _ _ _ P). now split.
Qed.

(** Building the property set never raises. *)
Lemma read_properties_no_raise args st e :
  fst (read_properties env args st) <> Raise e.
Proof.
  destruct (read_properties_run args st) as [entries [[d ->] | ->]]; discriminate.
Qed.

(** Building the property set leaves with code 1 only. *)
Lemma read_properties_exit_code args st c :
  fst (read_properties env args st) = SysExit c -> c = 1%Z.
Proof.
  destruct (read_properties_run args st) as [entries [[d ->] | ->]];
    simpl; congruence.
Qed.

End Main.

(** * Malformed arguments *)

Lemma malformed_not_accepted prop name value :
  malformed prop -> assigns prop name value -> name = ""%string.
Proof.
  intros [Hc | [v A]] B.
  - rewrite (assigns_has_char _ _ _ B) in Hc. discriminate.
  - now destruct (assigns_functional _ _ _ _ _ A B).
Qed.

(** One malformed argument anywhere in the list ends the loop with
    code 1. *)
Lemma parse_properties_malformed props prop d st :
  In prop props -> malformed prop ->
  fst (parse_properties props d st) = SysExit 1.
Proof.
  revert d. induction props as [|p props IH]; intros d Hin Hm; [contradiction|].
  destruct (parse_properties_step p props d st)
    as [(n & v & A & Hn & ->) | (m & ->)]; [|reflexivity].
  destruct Hin as [->|Hin].
  - now elim Hn; apply (malformed_not_accepted prop n v).
  - now apply IH.
Qed.

Lemma read_properties_malformed (env : Env) args props prop st :
  arg_properties args = Some props -> In prop props -> malformed prop ->
  fst (read_properties env args st) = SysExit 1 \/
  exists c, fst (read_properties env args st) = SysExit c.
Proof.
  intros Hp Hin Hm. unfold read_properties, bind. rewrite Hp.
  match goal with |- context [let (_, _) := ?m in _] =>
    destruct m as [[d0|c|e] s0] eqn:E end.
  - left. destruct props as [|p l]; [contradiction|].
    now apply (parse_properties_malformed (p :: l) prop).
  - right. now exists c.
  - exfalso.
    destruct (arg_properties_file args) as [f|]; [|discriminate].
    destruct (PyStr.truthy f); [|discriminate].
    pose proof (load_properties_run env f st) as L. rewrite E in L.
    destruct (json_file env f); discriminate.
Qed.

(** A run with a malformed argument ends with code 1 before any call. *)
Lemma run_malformed (env : Env) args props prop :
  arg_properties args = Some props -> In prop props -> malformed prop ->
  fst (run env args) = SysExit 1 /\ calls (snd (run env args)) = [].
Proof.
  intros Hp Hin Hm. pose proof (run_cases env args) as R. cbv zeta in R.
  destruct (opt_truthy (arg_token args)); [|now destruct R as (? & ? & _)].
  destruct (read_properties_malformed env args props prop initial Hp Hin Hm)
    as [E | [c E]]; rewrite E in R; exact R.
Qed.

Lemma starts_with_space_append (a b : string) :
  a <> ""%string ->
  PyStr.starts_with_space (a ++ b) = PyStr.starts_with_space a.
Proof. destruct a; [congruence | reflexivity]. Qed.

Lemma ends_with_space_append (a b : string) :
  b <> ""%string ->
  PyStr.ends_with_space (a ++ b) = PyStr.ends_with_space b.
Proof.
  intros Hb. induction a as [|c a IH]; [reflexivity|].
  simpl. rewrite IH. destruct (a ++ b)%string eqn:E; [|reflexivity].
  destruct a, b; simpl in E; congruence.
Qed.

Lemma all_space_no_equals (m : string) :
  PyStr.all_space m = true -> PyStr.has_char "=" m = false.
Proof.
  induction m as [|c m IH]; [reflexivity|].
  cbn [PyStr.all_space PyStr.has_char].
  intros H. apply andb_true_iff in H as [Hc Hm]. rewrite (IH Hm), orb_false_r.
  destruct (Ascii.eqb "=" c) eqn:E; [|reflexivity].
  apply Ascii.eqb_eq in E. subst c. discriminate.
Qed.

(** Whitespace around the argument, around the name and around the value
    does not count: the argument assigns the bare value to the bare
    name. *)
Lemma assigns_surrounded (l name m1 m2 value r : string) :
  PyStr.all_space l = true -> PyStr.all_space m1 = true ->
  PyStr.all_space m2 = true -> PyStr.all_space r = true ->
  clean name -> name <> ""%string -> PyStr.has_char "=" name = false ->
  clean value ->
  assigns (l ++ (name ++ m1) ++ String "=" (m2 ++ value) ++ r) name value.
Proof.
  intros Hl Hm1 Hm2 Hr [Hn1 Hn2] Hne Hc [Hv1 Hv2].
  assert (Ha : PyStr.has_char "=" (name ++ m1) = false)
    by (rewrite has_char_append, Hc; now apply all_space_no_equals).
  assert (Sa : PyStr.strip (name ++ m1) = name)
    by (apply (strip_surrounded "" name m1); auto).
  destruct value as [|c value].
  - exists (name ++ m1)%string, ""%string. repeat split; auto.
    rewrite append_empty_r.
    replace (l ++ (name ++ m1) ++ String "=" m2 ++ r)%string
      with (l ++ ((name ++ m1) ++ String "=" "") ++ (m2 ++ r))%string.
    + apply strip_surrounded; auto.
      * clear - Hm2 Hr. induction m2 as [|x m2 IH]; simpl in *; [exact Hr|].
        apply andb_true_iff in Hm2 as [-> Hm2]. now apply IH.
      * rewrite append_assoc, starts_with_space_append by exact Hne. exact Hn1.
      * rewrite ends_with_space_append by discriminate. reflexivity.
    + rewrite !append_assoc. reflexivity.
  - exists (name ++ m1)%string, (m2 ++ String c value)%string.
    assert (Sb : PyStr.strip (m2 ++ String c value) = String c value).
    { replace (m2 ++ String c value)%string
        with (m2 ++ String c value ++ "")%string
        by now rewrite append_empty_r.
      apply strip_surrounded; auto. }
    repeat split; auto.
    replace (l ++ (name ++ m1) ++ String "=" (m2 ++ String c value) ++ r)%string
      with (l ++ ((name ++ m1) ++ String "=" (m2 ++ String c value)) ++ r)%string.
    + apply strip_surrounded; auto.
      * rewrite append_assoc, starts_with_space_append by exact Hne. exact Hn1.
      * replace ((name ++ m1) ++ String "=" (m2 ++ String c value))%string
          with (((name ++ m1) ++ String "=" m2) ++ String c value)%string.
        -- rewrite ends_with_space_append by discriminate. exact Hv2.
        -- rewrite !append_assoc. simpl. now rewrite ?append_assoc.
    + rewrite !append_assoc. simpl. now rewrite ?append_assoc.
Qed.

(** A bare name=value argument, whatever ['='] the value holds. *)
Lemma assigns_bare (name value : string) :
  clean name -> name <> ""%string -> PyStr.has_char "=" name = false ->
  clean value ->
  assigns (name ++ String "=" value) name value.
Proof.
  intros Hn Hne Hc Hv.
  pose proof (assigns_surrounded "" name "" "" value "" eq_refl eq_refl eq_refl
                eq_refl Hn Hne Hc Hv) as A.
  simpl in A. now rewrite !append_empty_r in A.
Qed.

(** * The command line: property arguments and the empty property set *)

(** C6.  When the property sources together give the empty mapping, the
    run ends through [sys.exit(1)] on a configuration error (no
    properties, or the missing token checked before), and no call to the
    remote side has been made: no connection, no listing, no update. *)
Theorem empty_property_set_exits (env : Env) args :
  fst (read_properties env args initial) = Ret Dict.empty ->
  fst (run env args) = SysExit 1
  /\ exit_status (fst (run env args)) <> 0%Z
  /\ calls (snd (run env args)) = []
  /\ exists entries,
       log (snd (run env args))
       = entries ++ [(ERROR, if opt_truthy (arg_token args)
                             then NoProperties else TokenRequired)].
Proof.
  intros E. pose proof (run_cases env args) as R. cbv zeta in R.
  rewrite E in R. simpl in R.
  destruct (opt_truthy (arg_token args)); destruct R as (-> & -> & L);
    repeat split; auto; discriminate.
Qed.

Lemma empty_property_set_exits_witness :
  fst (run Sample.world Sample.no_properties) = SysExit 1
  /\ exit_status (fst (run Sample.world Sample.no_properties)) <> 0%Z
  /\ calls (snd (run Sample.world Sample.no_properties)) = []
  /\ exists entries,
       log (snd (run Sample.world Sample.no_properties))
       = entries ++ [(ERROR, NoProperties)].
Proof.
  apply (empty_property_set_exits Sample.world Sample.no_properties).
  reflexivity.
Defined.

(** C7.  The argument ["team=backend"] parses to the mapping
    [{"team": "backend"}]; the argument ["team"], without ['='], is
    rejected: the loop leaves with code 1 on an invalid-format error, and
    a run that has it among its arguments ends with code 1 before any
    call; the first ['='] separates the name from the value, so that a
    value may hold ['='] itself. *)
Theorem property_argument_format :
  (forall st,
      parse_properties ["team=backend"] Dict.empty st
      = (Ret [("team", "backend")], st))
  /\ (forall rest d st,
         parse_properties ("team" :: rest) d st
         = (SysExit 1, grown st [(ERROR, InvalidFormat "team")] [] (debug st)))
  /\ (forall (env : Env) args props,
         arg_properties args = Some props -> In "team" props ->
         fst (run env args) = SysExit 1 /\ calls (snd (run env args)) = [])
  /\ (forall name value rest d st,
         clean name -> name <> ""%string -> PyStr.has_char "=" name = false ->
         clean value ->
         parse_properties ((name ++ String "=" value)%string :: rest) d st
         = parse_properties rest (Dict.set name value d) st).
Proof.
  split; [reflexivity|]. split.
  - intros rest d st. simpl. unfold bind, logger_error. now rewrite emit_run.
  - split.
    + intros env args props Hp Hin.
      apply (run_malformed env args props "team" Hp Hin). now left.
    + intros name value rest d st Hn Hne Hc Hv.
      apply parse_properties_accepts; [|exact Hne]. now apply assigns_bare.
Qed.

Lemma property_argument_format_witness :
  parse_properties ["url=https://x.test/?a=b"] Dict.empty initial
  = (Ret [("url", "https://x.test/?a=b")], initial).
Proof.
  apply (proj2 (proj2 (proj2 property_argument_format))
           "url" "https://x.test/?a=b" [] Dict.empty initial).
  - split; reflexivity.
  - discriminate.
  - reflexivity.
  - split; reflexivity.
Defined.

(** C10.  A later assignment wins: in the property set [main] builds,
    a name holds the value of the last [--property] argument that assigns
    to it, whatever the properties file and the earlier arguments hold
    for it.  Whitespace around the argument, the name and the value is
    dropped; an argument whose name is empty ends the run with code 1
    before any call; an empty value is accepted, ["name="] giving
    [{"name": ""}]. *)
Theorem later_assignment_wins :
  (forall (env : Env) args st before prop after name value d' st',
      arg_properties args = Some (before ++ prop :: after) ->
      assigns prop name value ->
      (forall p v, In p after -> ~ assigns p name v) ->
      read_properties env args st = (Ret d', st') ->
      Dict.get name d' = Some value)
  /\ (forall l name m1 m2 value r rest d st,
         PyStr.all_space l = true -> PyStr.all_space m1 = true ->
         PyStr.all_space m2 = true -> PyStr.all_space r = true ->
         clean name -> name <> ""%string -> PyStr.has_char "=" name = false ->
         clean value ->
         parse_properties
           ((l ++ (name ++ m1) ++ String "=" (m2 ++ value) ++ r)%string :: rest) d st
         = parse_properties rest (Dict.set name value d) st)
  /\ (forall (env : Env) args props prop value,
         arg_properties args = Some props -> In prop props ->
         assigns prop "" value ->
         fst (run env args) = SysExit 1 /\ calls (snd (run env args)) = [])
  /\ (forall st,
         parse_properties ["name="] Dict.empty st = (Ret [("name", "")], st)).
Proof.
  split; [|split; [|split]].
  - intros env args st before prop after name value d' st' Hp A Hafter.
    unfold read_properties, bind. rewrite Hp.
    match goal with |- context [let (_, _) := ?m in _] =>
      destruct m as [[d0|c|e] s0] end; try discriminate.
    destruct (before ++ prop :: after) as [|p l] eqn:E.
    + now destruct before.
    + rewrite <- E. now apply parse_properties_last.
  - intros l name m1 m2 value r rest d st Hl Hm1 Hm2 Hr Hn Hne Hc Hv.
    apply parse_properties_accepts; [|exact Hne]. now apply assigns_surrounded.
  - intros env args props prop value Hp Hin A.
    apply (run_malformed env args props prop Hp Hin). right. now exists value.
  - reflexivity.
Qed.

Lemma later_assignment_wins_witness :
  exists d' st',
    read_properties Sample.world Sample.file_args initial = (Ret d', st')
    /\ Dict.get "team" d' = Some "data".
Proof.
  eexists _, _. split; [reflexivity|].
  apply (proj1 later_assignment_wins Sample.world Sample.file_args initial
           ["team=backend"; "env=prod"] " team = data " [] "team" "data" _ initial).
  - reflexivity.
  - exists "team ", " data". repeat split.
  - intros p v [].
  - reflexivity.
Defined.

(** * The single update *)

(** C9, as the code has it.  [set_custom_property] never raises: it sends
    exactly one request, carrying the one name/value pair, and returns a
    plain boolean.  It returns [False] on a response with a client-error
    (400-499) or server-error (500-599) status, logging the repository
    and the numeric status only, and [False] on a connection error, a
    timeout or any other exception, logging which; it returns [True] on
    every other response.  Erasing the response bodies changes neither
    the result nor the log. *)
Theorem single_update_reports (env : Env) self repo n v st :
  let req := patch_request self repo n v in
  let full_name := Repository.full_name repo in
  exists ok entry,
    set_custom_property env self repo n v st
    = (Ret ok, grown st [entry] [Patch req] (debug st))
    /\ json_properties req = [{| property_name := n; value := v |}]
    /\ set_custom_property (without_bodies env) self repo n v st
       = set_custom_property env self repo n v st
    /\ match requests_patch env (calls st) req with
       | Returns r =>
           if is_client_error (status_code r) || is_server_error (status_code r)
           then ok = false
                /\ entry = (ERROR, HttpFailure full_name (status_code r))
           else ok = true /\ entry = (INFO, PropertySet n v full_name)
       | Raises (HTTPError r) =>
           ok = false /\ entry = (ERROR, HttpFailure full_name (status_code r))
       | Raises ConnectionError =>
           ok = false /\ entry = (ERROR, ConnectionFailure full_name)
       | Raises Timeout =>
           ok = false /\ entry = (ERROR, RequestTimeout full_name)
       | Raises (RequestException cls) =>
           ok = false /\ entry = (ERROR, RequestError full_name cls)
       | Raises e =>
           ok = false /\ entry = (ERROR, UnexpectedError full_name (type_name e))
       end.
Proof.
  intros req full_name. subst req full_name.
  unfold set_custom_property, try_except, bind, remote, without_bodies. simpl.
  destruct (requests_patch env (calls st) (patch_request self repo n v)) as [r|e].
  - unfold raise_for_status. simpl. rewrite http_error_classes.
    destruct (is_client_error (status_code r) || is_server_error (status_code r));
      simpl; eexists _, _; repeat split; reflexivity.
  - destruct e; simpl; eexists _, _; repeat split; reflexivity.
Qed.

(** C9 as stated fails: a response that is not 2xx (304) is reported by
    the single update as a success. *)
Lemma not_modified_reported_as_success :
  exists r,
    requests_patch Sample.not_modified []
      (patch_request Sample.setter Sample.web "team" "backend") = Returns r
    /\ is_2xx (status_code r) = false
    /\ fst (set_custom_property Sample.not_modified Sample.setter Sample.web
              "team" "backend" initial) = Ret true.
Proof. eexists. repeat split. Qed.

(** * The run as a whole *)

(** The counters the driver returns after a listing that returned. *)
Lemma driver_result (env : Env) self d dry_run repo_filter st repos st1 :
  get_all_repos env self st = (Ret repos, st1) ->
  exists results st2,
    set_properties_on_all_repos env self d dry_run repo_filter st
    = (Ret results, st2)
    /\ success results + failed results + skipped results
       = length (selected repo_filter repos)
    /\ (if dry_run then failed results = 0 /\ success results = 0
        else skipped results = 0).
Proof.
  intros H.
  destruct (driver_after_listing env self d dry_run repo_filter _ _ _ H)
    as [entries ->].
  destruct dry_run.
  - destruct (for_repos_dry_run env self d (selected repo_filter repos)
                {| success := 0; failed := 0; skipped := 0 |}
                (grown st1 entries [] (debug st1))) as [e ->].
    eexists _, _. split; [reflexivity|]. simpl. auto.
  - destruct (for_repos_real_run env self d (selected repo_filter repos)
                {| success := 0; failed := 0; skipped := 0 |}
                (grown st1 entries [] (debug st1))) as [e ->].
    eexists _, _. split; [reflexivity|]. simpl.
    rewrite count_true_false, Nat.add_0_r. split; [apply outcomes_length | reflexivity].
Qed.

(** The driver returns or raises; it never leaves through [sys.exit]. *)
Lemma driver_no_exit (env : Env) self d dry_run repo_filter st c :
  fst (set_properties_on_all_repos env self d dry_run repo_filter st)
  <> SysExit c.
Proof.
  destruct (get_all_repos env self st) as [[repos|c'|e] st1] eqn:H.
  - destruct (driver_result env self d dry_run repo_filter _ _ _ H)
      as (results & st2 & -> & _). discriminate.
  - now elim (get_all_repos_no_exit env self st c' st1).
  - rewrite (driver_listing_raises env self d dry_run repo_filter _ _ _ H).
    discriminate.
Qed.

Lemma exit_status_ending (o : outcome Results) :
  (forall c, o <> SysExit c) ->
  exit_status (ending o) = 0%Z \/ exit_status (ending o) = 1%Z.
Proof.
  intros H. destruct o as [results|c|e]; simpl.
  - destruct (0 <? failed results)%nat; auto.
  - now elim (H c).
  - now right.
Qed.

(** C8.  The exit code of a run is 0 or 1.  It is 1 when the token is
    missing, when the property sources give no property set or an empty
    one, and when the connection to the organization does not return.
    Past these, once the listing has returned, it is 0 exactly when no
    repository is counted as failed, which is so exactly in a dry run or
    when every repository the filter keeps succeeded, and 1 otherwise;
    when the filter keeps no repository all the counters are zero and the
    code is 0. *)
Theorem exit_code_of_run (env : Env) args :
  let code := exit_status (fst (run env args)) in
  (code = 0 \/ code = 1)%Z
  /\ (opt_truthy (arg_token args) = false -> code = 1%Z)
  /\ ((forall d, fst (read_properties env args initial) = Ret d ->
                 Dict.truthy d = false) -> code = 1%Z)
  /\ ((forall o, github_get_organization env [] (token_of args) (arg_org args)
                 <> Returns o) -> code = 1%Z)
  /\ (forall d o repos st1,
         opt_truthy (arg_token args) = true ->
         fst (read_properties env args initial) = Ret d ->
         Dict.truthy d = true ->
         github_get_organization env [] (token_of args) (arg_org args) = Returns o ->
         get_all_repos env (connected_setter args o) (after_connection args)
         = (Ret repos, st1) ->
         exists results,
           fst (set_properties_on_all_repos env (connected_setter args o) d
                  (arg_dry_run args) (arg_filter args) (after_connection args))
           = Ret results
           /\ (code = 0%Z <-> failed results = 0)
           /\ (code = 1%Z <-> 0 < failed results)
           /\ (failed results = 0 <->
               arg_dry_run args = true
               \/ success results = length (selected (arg_filter args) repos))
           /\ (selected (arg_filter args) repos = [] ->
               results = {| success := 0; failed := 0; skipped := 0 |}
               /\ code = 0%Z)).
Proof.
  intros code. subst code.
  pose proof (run_cases env args) as R. cbv zeta in R.
  destruct (opt_truthy (arg_token args)) eqn:T.
  2:{ destruct R as (-> & _). simpl. repeat split; auto; intros; discriminate. }
  destruct (fst (read_properties env args initial)) as [d|c|e] eqn:E.
  2:{ destruct R as (-> & _). simpl. repeat split; auto; intros; discriminate. }
  2:{ destruct R as (-> & _). simpl. repeat split; auto; intros; discriminate. }
  destruct (Dict.truthy d) eqn:D.
  2:{ destruct R as (-> & _). simpl. repeat split; auto; try discriminate.
      intros d0 o repos st1 _ [= <-] D'. congruence. }
  destruct (github_get_organization env [] (token_of args) (arg_org args))
    as [o|e] eqn:G.
  2:{ assert (X : exit_status (fst (run env args)) = 1%Z)
        by (destruct e; destruct R as (-> & _); reflexivity).
      rewrite X. repeat split; auto; intros; discriminate. }
  destruct R as (-> & _).
  split; [apply exit_status_ending; intros c; apply driver_no_exit|].
  split; [discriminate|]. split.
  { intros H. specialize (H d eq_refl). congruence. }
  split.
  { intros H. now elim (H o). }
  intros d0 o0 repos st1 _ [= <-] _ [= <-] L.
  destruct (driver_result env (connected_setter args o) d (arg_dry_run args)
              (arg_filter args) _ _ _ L) as (results & st2 & Hrun & Hsum & Hdry).
  exists results. rewrite Hrun. simpl.
  assert (Hcode : forall n : nat,
             (exit_status (if (0 <? n)%nat then @SysExit unit 1 else Ret tt) = 0%Z
              <-> n = 0)
             /\ (exit_status (if (0 <? n)%nat then @SysExit unit 1 else Ret tt) = 1%Z
                 <-> 0 < n)).
  { intros [|n]; simpl; split; split; intros; try lia; try discriminate. }
  destruct (Hcode (failed results)) as [H0 H1].
  split; [reflexivity|]. split; [exact H0|]. split; [exact H1|]. split.
  - destruct (arg_dry_run args).
    + destruct Hdry as [Hf _]. split; auto.
    + split; [intros Hf; right; lia | intros [Hd | Hs]; [discriminate | lia]].
  - intros Hsel. rewrite Hsel in Hsum. simpl in Hsum.
    assert (Hz : results = {| success := 0; failed := 0; skipped := 0 |}).
    { destruct results as [a b c]. simpl in *.
      assert (a = 0) by lia. assert (b = 0) by lia. assert (c = 0) by lia.
      now subst. }
    split; [exact Hz|]. apply H0. now rewrite Hz.
Qed.

Lemma exit_code_of_run_witness :
  exists results,
    fst (set_properties_on_all_repos Sample.world
           (connected_setter Sample.dry_args Sample.acme) [("team", "backend")]
           true (Some "front") (after_connection Sample.dry_args))
    = Ret results
    /\ (exit_status (fst (run Sample.world Sample.dry_args)) = 0%Z
        <-> failed results = 0)
    /\ (exit_status (fst (run Sample.world Sample.dry_args)) = 1%Z
        <-> 0 < failed results)
    /\ (failed results = 0 <->
        true = true
        \/ success results
           = length (selected (Some "front") [Sample.web; Sample.api; Sample.docs]))
    /\ (selected (Some "front") [Sample.web; Sample.api; Sample.docs] = [] ->
        results = {| success := 0; failed := 0; skipped := 0 |}
        /\ exit_status (fst (run Sample.world Sample.dry_args)) = 0%Z).
Proof.
  eapply (proj2 (proj2 (proj2 (proj2 (exit_code_of_run Sample.world Sample.dry_args))))
            [("team", "backend")] Sample.acme [Sample.web; Sample.api; Sample.docs]);
    reflexivity.
Defined.

(** C5, as the code has it.  A [GithubException] (bad credentials and an
    unknown organization are of this class) ends the run with code 1 when
    the connection attempt raises it, before any listing.  Raised by the
    listing, it is logged and [get_all_repos] returns the empty list: the
    driver goes on over no repository, returns all-zero counters, and the
    run ends normally, with code 0.  Any other exception (a transport
    failure of the HTTP library, say) is caught nowhere: it leaves
    [get_all_repos], the driver and [main], which ends the process with
    status 1. *)
Theorem listing_failure_handling (env : Env) args d :
  opt_truthy (arg_token args) = true ->
  fst (read_properties env args initial) = Ret d ->
  Dict.truthy d = true ->
  let call := GetOrganization (token_of args) (arg_org args) in
  match github_get_organization env [] (token_of args) (arg_org args) with
  | Raises (GithubException _ _) =>
      fst (run env args) = SysExit 1 /\ calls (snd (run env args)) = [call]
  | Raises e =>
      fst (run env args) = Raise e /\ calls (snd (run env args)) = [call]
  | Returns o =>
      let self := connected_setter args o in
      let st := after_connection args in
      match organization_get_repos env [call] o with
      | Returns repos =>
          get_all_repos env self st
          = (Ret repos, grown st [(INFO, FoundRepos (length repos) (arg_org args))]
                          [GetRepos o] false)
      | Raises (GithubException status msg) =>
          get_all_repos env self st
          = (Ret [], grown st [(ERROR, FetchFailed (GithubException status msg))]
                       [GetRepos o] false)
          /\ fst (set_properties_on_all_repos env self d (arg_dry_run args)
                    (arg_filter args) st)
             = Ret {| success := 0; failed := 0; skipped := 0 |}
          /\ fst (run env args) = Ret tt
          /\ exit_status (fst (run env args)) = 0%Z
      | Raises e =>
          get_all_repos env self st = (Raise e, grown st [] [GetRepos o] false)
          /\ fst (run env args) = Raise e
          /\ exit_status (fst (run env args)) = 1%Z
      end
  end.
Proof.
  intros T E D call.
  pose proof (run_cases env args) as R. cbv zeta in R.
  rewrite T, E, D in R. fold call in R.
  destruct (github_get_organization env [] (token_of args) (arg_org args))
    as [o|e]; [|destruct e; exact R].
  cbv zeta.
  pose proof (get_all_repos_cases env (connected_setter args o)
                (after_connection args)) as L.
  simpl in L. fold call in L.
  destruct (organization_get_repos env [call] o) as [repos|e]; [exact L|].
  destruct R as [R _].
  assert (Hraise : forall e0,
             get_all_repos env (connected_setter args o) (after_connection args)
             = (Raise e0, grown (after_connection args) [] [GetRepos o] false) ->
             fst (run env args) = Raise e0
             /\ exit_status (fst (run env args)) = 1%Z).
  { intros e0 H. rewrite R.
    rewrite (driver_listing_raises env _ d (arg_dry_run args) (arg_filter args)
               _ _ _ H). now split. }
  destruct e; try (split; [exact L | now apply Hraise]).
  split; [exact L|].
  destruct (driver_result env _ d (arg_dry_run args) (arg_filter args) _ _ _ L)
    as (results & st2 & Hrun & Hsum & _).
  assert (Hz : results = {| success := 0; failed := 0; skipped := 0 |}).
  { assert (Hs : selected (arg_filter args) (@nil Repository.t) = [])
      by (unfold selected, matching; destruct (arg_filter args) as [f|];
          [destruct (PyStr.truthy f)|]; reflexivity).
    rewrite Hs in Hsum. simpl in Hsum.
    destruct results as [a b c]. simpl in *.
    assert (a = 0) by lia. assert (b = 0) by lia. assert (c = 0) by lia.
    now subst. }
  rewrite R, Hrun, Hz. now repeat split.
Qed.

Lemma listing_failure_handling_witness :
  get_all_repos Sample.revoked (connected_setter Sample.args Sample.acme)
    (after_connection Sample.args)
  = (Ret [], grown (after_connection Sample.args)
               [(ERROR, FetchFailed (GithubException 401 "Bad credentials"))]
               [GetRepos Sample.acme] false)
  /\ fst (set_properties_on_all_repos Sample.revoked
            (connected_setter Sample.args Sample.acme) Sample.properties
            false None (after_connection Sample.args))
     = Ret {| success := 0; failed := 0; skipped := 0 |}
  /\ fst (run Sample.revoked Sample.args) = Ret tt
  /\ exit_status (fst (run Sample.revoked Sample.args)) = 0%Z.
Proof.
  apply (listing_failure_handling Sample.revoked Sample.args Sample.properties);
    reflexivity.
Defined.

(** C5 as stated fails: when the listing is refused for bad credentials,
    [get_all_repos] returns a normal result, the empty list, and the run
    ends with code 0. *)
Lemma refused_listing_ends_in_success :
  organization_get_repos Sample.revoked [GetOrganization "t0k3n" "acme"] Sample.acme
  = Raises (GithubException 401 "Bad credentials")
  /\ fst (get_all_repos Sample.revoked Sample.setter Sample.connected) = Ret []
  /\ exit_status (fst (run Sample.revoked Sample.args)) = 0%Z.
Proof. repeat split. Qed.

(** * Further properties of the script *)

(** X1.  When [validate_connection] returns [True], the connection call
    returned an organization, the setter holds it with its token and
    organization name unchanged, and one call was made; the listing that
    follows is one call addressed to that organization, whose answer
    decides what [get_all_repos] gives. *)
Theorem listing_follows_connection (env : Env) self st self' st1 :
  validate_connection env self st = (Ret (true, self'), st1) ->
  exists o,
    github_get_organization env (calls st) (github_auth self) (org_name self)
    = Returns o
    /\ self' = {| github_auth := github_auth self; token := token self;
                  org_name := org_name self; org := Some o |}
    /\ calls st1 = calls st ++ [GetOrganization (github_auth self) (org_name self)]
    /\ calls (snd (get_all_repos env self' st1)) = calls st1 ++ [GetRepos o]
    /\ fst (get_all_repos env self' st1)
       = match organization_get_repos env (calls st1) o with
         | Returns repos => Ret repos
         | Raises (GithubException _ _) => Ret []
         | Raises e => Raise e
         end.
Proof.
  intros H. pose proof (validate_connection_cases env self st) as V.
  cbv zeta in V.
  destruct (github_get_organization env (calls st) (github_auth self) (org_name self))
    as [o|e].
  - rewrite V in H. injection H as <- <-. exists o.
    split; [reflexivity|]. split; [reflexivity|]. split; [reflexivity|].
    match goal with |- context [get_all_repos env ?s ?t] =>
      pose proof (get_all_repos_cases env s t) as L end.
    simpl org in L. cbv iota in L.
    destruct (organization_get_repos env _ o) as [repos|e];
      [|destruct e]; rewrite L; now split.
  - destruct e; rewrite V in H; discriminate.
Qed.

Lemma listing_follows_connection_witness :
  exists o,
    github_get_organization Sample.world [] "t0k3n" "acme" = Returns o
    /\ connected_setter Sample.args Sample.acme
       = {| github_auth := "t0k3n"; token := "t0k3n"; org_name := "acme";
            org := Some o |}
    /\ calls (grown initial [(INFO, ConnectedTo "acme")]
                [GetOrganization "t0k3n" "acme"] false)
       = calls initial ++ [GetOrganization "t0k3n" "acme"]
    /\ calls (snd (get_all_repos Sample.world
                     (connected_setter Sample.args Sample.acme)
                     (grown initial [(INFO, ConnectedTo "acme")]
                        [GetOrganization "t0k3n" "acme"] false)))
       = calls (grown initial [(INFO, ConnectedTo "acme")]
                  [GetOrganization "t0k3n" "acme"] false)
         ++ [GetRepos o]
    /\ fst (get_all_repos Sample.world
              (connected_setter Sample.args Sample.acme)
              (grown initial [(INFO, ConnectedTo "acme")]
                 [GetOrganization "t0k3n" "acme"] false))
       = match organization_get_repos Sample.world
                 (calls (grown initial [(INFO, ConnectedTo "acme")]
                           [GetOrganization "t0k3n" "acme"] false)) o with
         | Returns repos => Ret repos
         | Raises (GithubException _ _) => Ret []
         | Raises e => Raise e
         end.
Proof.
  apply (listing_follows_connection Sample.world (init "t0k3n" "acme") initial).
  reflexivity.
Defined.

(** X2.  A setter on which [validate_connection] has not run cannot
    list: the driver ends with an [AttributeError], which the handler of
    [get_all_repos] does not catch, having sent and logged nothing. *)
Theorem driver_needs_connection (env : Env) self d dry_run repo_filter st :
  org self = None ->
  exists msg,
    set_properties_on_all_repos env self d dry_run repo_filter st
    = (Raise (PyException "AttributeError" msg), st).
Proof.
  intros H. eexists.
  apply driver_listing_raises.
  unfold get_all_repos, org_get_repos. rewrite H. reflexivity.
Qed.

Lemma driver_needs_connection_witness :
  exists msg,
    set_properties_on_all_repos Sample.world (init "t0k3n" "acme")
      Sample.properties false None initial
    = (Raise (PyException "AttributeError" msg), initial).
Proof.
  apply (driver_needs_connection Sample.world (init "t0k3n" "acme")).
  reflexivity.
Defined.

(** X3.  A properties file that cannot be opened or decoded ends the run
    through [sys.exit(1)] with the one error line that names the file,
    before any call to the remote side, whatever [--property] arguments
    come with it. *)
Theorem unreadable_file_stops_run (env : Env) args file_path e :
  opt_truthy (arg_token args) = true ->
  arg_properties_file args = Some file_path ->
  PyStr.truthy file_path = true ->
  json_file env file_path = Raises e ->
  run env args
  = (SysExit 1,
     {| log := [(ERROR, LoadFailed file_path e)]; calls := [];
        debug := arg_verbose args |}).
Proof.
  intros T Hf Ht He.
  assert (R : forall st,
             read_properties env args st
             = (SysExit 1, grown st [(ERROR, LoadFailed file_path e)] [] (debug st))).
  { intros st. unfold read_properties. rewrite Hf, Ht.
    apply bind_exit_step.
    pose proof (load_properties_run env file_path st) as L.
    now rewrite He in L. }
  unfold run, main. apply bind_exit_step. unfold prepare.
  rewrite (bind_ret_step _ _ _ _ _ (verbose_run args initial)).
  rewrite T. simpl negb. cbv iota.
  rewrite (bind_ret_step _ _ _ tt _ eq_refl).
  rewrite (bind_exit_step _ _ _ _ _ (R _)).
  unfold grown. simpl. now rewrite orb_false_r.
Qed.

Lemma unreadable_file_stops_run_witness :
  run Sample.world
    {| arg_token := Some "t0k3n"; arg_org := "acme";
       arg_properties := Some ["team=backend"];
       arg_properties_file := Some "missing.json";
       arg_dry_run := false; arg_filter := None; arg_verbose := false |}
  = (SysExit 1,
     {| log := [(ERROR, LoadFailed "missing.json"
                          (PyException "FileNotFoundError" "No such file"))];
        calls := []; debug := false |}).
Proof.
  apply (unreadable_file_stops_run Sample.world
           {| arg_token := Some "t0k3n"; arg_org := "acme";
              arg_properties := Some ["team=backend"];
              arg_properties_file := Some "missing.json";
              arg_dry_run := false; arg_filter := None; arg_verbose := false |}
           "missing.json" (PyException "FileNotFoundError" "No such file"));
    reflexivity.
Defined.

(** X4.  A name of the properties file that no [--property] argument
    assigns to keeps the value of the file in the property set. *)
Theorem file_value_kept (env : Env) args file_path d0 name st d' st' :
  arg_properties_file args = Some file_path ->
  PyStr.truthy file_path = true ->
  json_file env file_path = Returns d0 ->
  (forall p v, In p (property_args args) -> ~ assigns p name v) ->
  read_properties env args st = (Ret d', st') ->
  Dict.get name d' = Dict.get name d0.
Proof.
  intros Hf Ht Hj Hn. unfold read_properties. rewrite Hf, Ht.
  pose proof (load_properties_run env file_path st) as L. rewrite Hj in L.
  rewrite (bind_ret_step _ _ _ _ _ L).
  unfold property_args in Hn.
  destruct (arg_properties args) as [[|p l]|].
  - now intros [= <- _].
  - now apply parse_properties_untouched.
  - now intros [= <- _].
Qed.

Lemma file_value_kept_witness :
  exists d' st',
    read_properties Sample.world Sample.file_args initial = (Ret d', st')
    /\ Dict.get "tier" d' = Dict.get "tier" [("team", "platform"); ("tier", "gold")].
Proof.
  eexists _, _. split; [reflexivity|].
  apply (file_value_kept Sample.world Sample.file_args "properties.json"
           [("team", "platform"); ("tier", "gold")] "tier" initial _ initial);
    try reflexivity.
  assert (A1 : assigns "team=backend" "team" "backend")
    by (exists "team", "backend"; repeat split).
  assert (A2 : assigns "env=prod" "env" "prod")
    by (exists "env", "prod"; repeat split).
  assert (A3 : assigns " team = data " "team" "data")
    by (exists "team ", " data"; repeat split).
  intros p v [<- | [<- | [<- | []]]] A.
  - destruct (assigns_functional _ _ _ _ _ A A1). discriminate.
  - destruct (assigns_functional _ _ _ _ _ A A2). discriminate.
  - destruct (assigns_functional _ _ _ _ _ A A3). discriminate.
Defined.

Lemma parse_properties_NoDup props d st d' st' :
  NoDup (Dict.keys d) ->
  parse_properties props d st = (Ret d', st') ->
  NoDup (Dict.keys d').
Proof.
  revert d. induction props as [|p props IH]; intros d Hd E.
  - simpl in E. now injection E as <- _.
  - destruct (parse_properties_step p props d st)
      as [(n & v & _ & _ & Ep) | (m & Ep)]; rewrite Ep in E; [|discriminate].
    apply (IH _ (dict_set_NoDup n v d Hd) E).
Qed.

(** X5.  When the mapping of the properties file has distinct keys, so
    has the property set [main] builds; a repository is then sent at most
    one update for a property name. *)
Theorem property_names_distinct (env : Env) args st d' st' :
  (forall file_path d0,
      json_file env file_path = Returns d0 -> NoDup (Dict.keys d0)) ->
  read_properties env args st = (Ret d', st') ->
  NoDup (Dict.keys d')
  /\ forall self repo,
       flat_map (fun req => map property_name (json_properties req))
                (requests_for self d' repo)
       = Dict.keys d'.
Proof.
  intros Hfile E. split.
  - revert E. unfold read_properties, bind.
    assert (F : forall d0 s0,
               (match arg_properties_file args with
                | Some file_path =>
                    if PyStr.truthy file_path
                    then load_properties_from_file env file_path
                    else ret Dict.empty
                | None => ret Dict.empty
                end) st = (Ret d0, s0) -> NoDup (Dict.keys d0)).
    { intros d0 s0. destruct (arg_properties_file args) as [f|].
      - destruct (PyStr.truthy f).
        + pose proof (load_properties_run env f st) as L.
          destruct (json_file env f) as [d1|e] eqn:J; rewrite L.
          * intros [= <- _]. now apply (Hfile f).
          * discriminate.
        + intros [= <- _]. constructor.
      - intros [= <- _]. constructor. }
    match goal with |- context [let (_, _) := ?m in _] =>
      destruct m as [[d0|c|e] s0] eqn:M end; try discriminate.
    specialize (F d0 s0 eq_refl).
    destruct (arg_properties args) as [[|p l]|].
    + now intros [= <- _].
    + now apply parse_properties_NoDup.
    + now intros [= <- _].
  - intros self repo. unfold requests_for, Dict.keys, Dict.items.
    induction d' as [|[n v] d IH] in |- *; simpl; [reflexivity|].
    now rewrite IH.
Qed.

Lemma property_names_distinct_witness :
  NoDup (Dict.keys [("team", "data"); ("tier", "gold"); ("env", "prod")])
  /\ forall self repo,
       flat_map (fun req => map property_name (json_properties req))
                (requests_for self [("team", "data"); ("tier", "gold"); ("env", "prod")] repo)
       = Dict.keys [("team", "data"); ("tier", "gold"); ("env", "prod")].
Proof.
  apply (property_names_distinct Sample.world Sample.file_args initial _ initial).
  - intros file_path d0. simpl.
    destruct (String.eqb file_path "properties.json"); [|discriminate].
    intros [= <-]. repeat constructor; simpl; intuition discriminate.
  - reflexivity.
Defined.

(** After a listing that returns, the lines before the loop are the
    notices. *)
Lemma driver_after_listing_notices (env : Env) self properties dry_run
  repo_filter st repos st1 :
  get_all_repos env self st = (Ret repos, st1) ->
  set_properties_on_all_repos env self properties dry_run repo_filter st
  = for_repos env self properties dry_run (selected repo_filter repos)
      {| success := 0; failed := 0; skipped := 0 |}
      (grown st1 (notices repo_filter dry_run repos) [] (debug st1)).
Proof.
  intros H. unfold set_properties_on_all_repos.
  rewrite (bind_ret_step _ _ _ _ _ H).
  unfold selected, notices, bind, logger_info.
  destruct repo_filter as [f|]; [destruct (PyStr.truthy f)|];
    destruct dry_run; unfold ret; rewrite ?emit_run; cbv beta iota;
    rewrite ?emit_run; cbv beta iota; rewrite ?grown_again; simpl app;
    simpl debug; rewrite ?grown_nothing; reflexivity.
Qed.

Lemma log_items_log items st :
  log_items items st
  = (Ret tt,
     grown st (map (fun item => (INFO, WouldSetItem (fst item) (snd item))) items)
       [] (debug st)).
Proof.
  revert st. induction items as [|[n v] items IH]; intros st.
  - simpl. unfold ret. now rewrite grown_nothing.
  - simpl. unfold logger_info.
    rewrite (bind_ret_step _ _ _ _ _ (emit_run _ _ _)), IH, grown_again.
    reflexivity.
Qed.

(** The log of the loop in a dry run. *)
Lemma for_repos_dry_log (env : Env) self properties repos results st :
  for_repos env self properties true repos results st
  = (Ret {| success := success results; failed := failed results;
            skipped := skipped results + length repos |},
     grown st (flat_map (intended properties) repos) [] (debug st)).
Proof.
  revert results st. induction repos as [|repo repos IH]; intros results st.
  - simpl. unfold ret. rewrite grown_nothing, Nat.add_0_r. now destruct results.
  - cbn [for_repos]. unfold logger_info.
    erewrite bind_ret_step.
    2:{ rewrite (bind_ret_step _ _ _ _ _ (emit_run _ _ _)).
        rewrite (bind_ret_step _ _ _ _ _ (log_items_log _ _)).
        reflexivity. }
    rewrite IH, !grown_again. simpl. do 3 f_equal. lia.
Qed.

Lemma length_requests (self : CustomPropertySetter) properties repos :
  length (flat_map (requests_for self properties) repos)
  = length repos * length (Dict.items properties).
Proof.
  induction repos as [|r repos IH]; simpl; [reflexivity|].
  rewrite length_app, IH. unfold requests_for. now rewrite length_map.
Qed.

(** The calls of the driver after a listing that returns. *)
Lemma driver_calls (env : Env) self properties dry_run repo_filter st repos st1 :
  get_all_repos env self st = (Ret repos, st1) ->
  calls (snd (set_properties_on_all_repos env self properties dry_run
                repo_filter st))
  = calls st1
    ++ (if dry_run then []
        else map Patch (flat_map (requests_for self properties)
                          (selected repo_filter repos))).
Proof.
  intros H. rewrite (driver_after_listing_notices env _ _ _ _ _ _ _ H).
  destruct dry_run.
  - rewrite for_repos_dry_log. simpl. now rewrite !app_nil_r.
  - match goal with |- context [for_repos env ?s ?p false ?l ?r ?t] =>
      destruct (for_repos_real_run env s p l r t) as [e ->] end.
    simpl. now rewrite app_nil_r.
Qed.

(** X6.  A real run sends as many updates as there are repositories kept
    by the filter times items in the property set, whether they succeed
    or not. *)
Theorem update_count (env : Env) self properties repo_filter st repos st1 :
  get_all_repos env self st = (Ret repos, st1) ->
  length (patches (calls (snd (set_properties_on_all_repos env self properties
                                 false repo_filter st))))
  = length (patches (calls st))
    + length (selected repo_filter repos) * length (Dict.items properties).
Proof.
  intros H. rewrite (driver_calls env _ _ _ _ _ _ _ H).
  rewrite patches_app, patches_map_Patch, length_app, length_requests.
  pose proof (get_all_repos_patches env self st) as P. rewrite H in P.
  simpl in P. now rewrite P.
Qed.

Lemma update_count_witness :
  length (patches (calls (snd (set_properties_on_all_repos Sample.world
                                 Sample.setter Sample.properties false
                                 (Some "front") Sample.connected))))
  = length (patches (calls Sample.connected))
    + length (selected (Some "front") [Sample.web; Sample.api; Sample.docs])
      * length (Dict.items Sample.properties).
Proof.
  eapply (update_count Sample.world Sample.setter). reflexivity.
Defined.

(** X7.  In a dry run the driver logs, after the listing, the count of
    the filter (when there is a filter), the dry-run notice and then, for
    each repository the filter keeps and in their order, its full name
    followed by one line for each item of the property set; nothing
    else. *)
Theorem dry_run_announces (env : Env) self properties repo_filter st repos st1 :
  get_all_repos env self st = (Ret repos, st1) ->
  log (snd (set_properties_on_all_repos env self properties true repo_filter st))
  = log st1 ++ notices repo_filter true repos
    ++ flat_map (intended properties) (selected repo_filter repos).
Proof.
  intros H. rewrite (driver_after_listing_notices env _ _ _ _ _ _ _ H).
  rewrite for_repos_dry_log. simpl. now rewrite app_assoc.
Qed.

Lemma dry_run_announces_witness :
  log (snd (set_properties_on_all_repos Sample.world Sample.setter
              Sample.properties true (Some "front") Sample.connected))
  = log (grown Sample.connected [(INFO, FoundRepos 3 "acme")]
           [GetRepos Sample.acme] false)
    ++ notices (Some "front") true [Sample.web; Sample.api; Sample.docs]
    ++ flat_map (intended Sample.properties)
         (selected (Some "front") [Sample.web; Sample.api; Sample.docs]).
Proof.
  apply (dry_run_announces Sample.world Sample.setter). reflexivity.
Defined.

(** The line one update leaves in the log: about the repository, and of
    level INFO exactly when the update succeeded. *)
Lemma set_custom_property_entry (env : Env) self repo n v st :
  exists entry,
    set_custom_property env self repo n v st
    = (Ret (update_succeeds env (calls st) (patch_request self repo n v)),
       grown st [entry] [Patch (patch_request self repo n v)] (debug st))
    /\ is_info entry = update_succeeds env (calls st) (patch_request self repo n v)
    /\ about (snd entry) = Some (Repository.full_name repo).
Proof.
  unfold set_custom_property, try_except, bind, remote, update_succeeds.
  destruct (requests_patch env (calls st) _) as [r|e].
  - unfold raise_for_status. rewrite http_error_classes.
    destruct (is_client_error _ || is_server_error _); simpl;
      eexists; repeat split.
  - destruct e; simpl; eexists; repeat split.
Qed.

Lemma apply_items_entries (env : Env) self repo items success st :
  exists entries,
    apply_items env self repo items success st
    = (Ret (success
            && all_succeed env (calls st)
                 (map (fun item => patch_request self repo (fst item) (snd item)) items)),
       grown st entries
         (map Patch (map (fun item => patch_request self repo (fst item) (snd item)) items))
         (debug st))
    /\ forallb is_info entries
       = all_succeed env (calls st)
           (map (fun item => patch_request self repo (fst item) (snd item)) items)
    /\ Forall (fun entry => about (snd entry) = Some (Repository.full_name repo))
              entries.
Proof.
  revert success st. induction items as [|[n v] items IH]; intros success st.
  - exists []. simpl. unfold ret. rewrite andb_true_r, grown_nothing.
    repeat split. constructor.
  - simpl.
    destruct (set_custom_property_entry env self repo n v st)
      as (entry & E & Hi & Ha).
    rewrite (bind_ret_step _ _ _ _ _ E).
    destruct (IH (if negb (update_succeeds env (calls st) (patch_request self repo n v))
                  then false else success)
                 (grown st [entry] [Patch (patch_request self repo n v)] (debug st)))
      as (entries & -> & Hf & Hall).
    exists (entry :: entries). rewrite grown_again. simpl. split; [|split].
    + f_equal. f_equal.
      destruct (update_succeeds env (calls st) _), success; reflexivity.
    + now rewrite Hi, Hf.
    + now constructor.
Qed.

Lemma if_ret {A} (b : bool) (x y : A) (st : State) :
  (if b then ret x else ret y) st = (Ret (if b then x else y), st).
Proof. now destruct b. Qed.

Lemma count_false_zero (l : list bool) :
  count false l = 0 <-> forallb (fun b => b) l = true.
Proof.
  unfold count. induction l as [|[|] l IH]; simpl.
  - now split.
  - exact IH.
  - split; discriminate.
Qed.

(** The log of the loop in a real run: all lines are of level INFO
    exactly when every repository succeeded, and a repository that did
    not has an error line about it. *)
Lemma for_repos_real_entries (env : Env) self properties repos results st :
  exists entries,
    for_repos env self properties false repos results st
    = (Ret {| success := success results
                         + count true (outcomes env self properties (calls st) repos);
              failed := failed results
                        + count false (outcomes env self properties (calls st) repos);
              skipped := skipped results |},
       grown st entries
         (map Patch (flat_map (requests_for self properties) repos))
         (debug st))
    /\ forallb is_info entries
       = forallb (fun b => b) (outcomes env self properties (calls st) repos)
    /\ forall i repo,
         nth_error repos i = Some repo ->
         nth_error (outcomes env self properties (calls st) repos) i = Some false ->
         exists m, In (ERROR, m) entries
                   /\ about m = Some (Repository.full_name repo).
Proof.
  revert results st. induction repos as [|repo repos IH]; intros results st.
  - exists []. simpl. unfold ret, count. simpl.
    rewrite grown_nothing, !Nat.add_0_r. split; [now destruct results|].
    split; [reflexivity|]. intros [|i] r; discriminate.
  - cbn [for_repos outcomes flat_map].
    destruct (apply_items_entries env self repo (Dict.items properties) true st)
      as (e1 & E1 & Hf1 & Ha1).
    fold (requests_for self properties repo) in E1, Hf1.
    set (ok := all_succeed env (calls st) (requests_for self properties repo)) in *.
    clearbody ok.
    erewrite bind_ret_step.
    2:{ rewrite (bind_ret_step _ _ _ _ _ E1). cbn [andb]. apply if_ret. }
    match goal with |- context [for_repos env self properties false repos ?r ?s] =>
      destruct (IH r s) as (e2 & -> & Hf2 & Hn2) end.
    exists (e1 ++ e2). rewrite grown_again, map_app.
    change (calls (grown st e1 (map Patch (requests_for self properties repo))
                     (debug st)))
      with (calls st ++ map Patch (requests_for self properties repo)) in *.
    split; [|split].
    + unfold count. destruct ok; simpl; do 3 f_equal; lia.
    + rewrite forallb_app, Hf1, Hf2. reflexivity.
    + intros [|i] r Hr Ho; simpl in Hr, Ho.
      * injection Hr as <-. injection Ho as Ho.
        rewrite Ho in Hf1.
        assert (X : exists entry, In entry e1 /\ is_info entry = false).
        { clear - Hf1. induction e1 as [|x e1 IHe]; simpl in Hf1; [discriminate|].
          destruct (is_info x) eqn:Ix.
          - destruct (IHe Hf1) as (y & Hy & Iy). exists y. split; [now right | exact Iy].
          - exists x. split; [now left | exact Ix]. }
        destruct X as ([[|] m] & Hin & Hi); [discriminate|].
        exists m. split; [apply in_or_app; now left|].
        rewrite Forall_forall in Ha1. exact (Ha1 _ Hin).
      * destruct (Hn2 i r Hr Ho) as (m & Hin & Hm).
        exists m. split; [apply in_or_app; now right | exact Hm].
Qed.

(** X8.  No failure of a real run goes unlogged: after the listing and
    the notices, the lines the driver logs are all of level INFO exactly
    when no repository is counted as failed, and every repository that
    is counted as failed has an error line about it. *)
Theorem failures_are_logged (env : Env) self properties repo_filter st repos st1 :
  get_all_repos env self st = (Ret repos, st1) ->
  let sel := selected repo_filter repos in
  exists results st2 added,
    set_properties_on_all_repos env self properties false repo_filter st
    = (Ret results, st2)
    /\ log st2 = log st1 ++ notices repo_filter false repos ++ added
    /\ (failed results = 0 <-> forallb is_info added = true)
    /\ forall i repo,
         nth_error sel i = Some repo ->
         nth_error (outcomes env self properties (calls st1) sel) i = Some false ->
         exists m, In (ERROR, m) added
                   /\ about m = Some (Repository.full_name repo).
Proof.
  intros H sel. subst sel.
  rewrite (driver_after_listing_notices env _ _ _ _ _ _ _ H).
  match goal with |- context [for_repos env self properties false ?l ?r ?s] =>
    destruct (for_repos_real_entries env self properties l r s)
      as (added & -> & Hf & Hn) end.
  change (calls (grown st1 (notices repo_filter false repos) [] (debug st1)))
    with (calls st1 ++ []) in *.
  rewrite app_nil_r in *.
  eexists _, _, added. split; [reflexivity|]. split; [|split].
  - simpl. now rewrite app_assoc.
  - simpl. rewrite Hf. apply count_false_zero.
  - exact Hn.
Qed.

Lemma failures_are_logged_witness :
  exists results st2 added,
    set_properties_on_all_repos Sample.world Sample.setter Sample.properties
      false None Sample.connected
    = (Ret results, st2)
    /\ log st2
       = log (grown Sample.connected [(INFO, FoundRepos 3 "acme")]
                [GetRepos Sample.acme] false)
         ++ notices None false [Sample.web; Sample.api; Sample.docs] ++ added
    /\ (failed results = 0 <-> forallb is_info added = true)
    /\ forall i repo,
         nth_error (selected None [Sample.web; Sample.api; Sample.docs]) i
         = Some repo ->
         nth_error (outcomes Sample.world Sample.setter Sample.properties
                      (calls (grown Sample.connected [(INFO, FoundRepos 3 "acme")]
                                [GetRepos Sample.acme] false))
                      (selected None [Sample.web; Sample.api; Sample.docs])) i
         = Some false ->
         exists m, In (ERROR, m) added
                   /\ about m = Some (Repository.full_name repo).
Proof.
  apply (failures_are_logged Sample.world Sample.setter Sample.properties None
           Sample.connected). reflexivity.
Defined.

(** X9.  The [--verbose] flag changes neither how a run ends nor the
    calls it makes. *)
Theorem verbose_changes_nothing (env : Env) args b :
  fst (run env (with_verbose b args)) = fst (run env args)
  /\ calls (snd (run env (with_verbose b args))) = calls (snd (run env args)).
Proof.
  pose proof (run_cases env args) as R.
  pose proof (run_cases env (with_verbose b args)) as R'.
  cbv zeta in R, R'.
  change (arg_token (with_verbose b args)) with (arg_token args) in R'.
  change (read_properties env (with_verbose b args))
    with (read_properties env args) in R'.
  change (token_of (with_verbose b args)) with (token_of args) in R'.
  change (arg_org (with_verbose b args)) with (arg_org args) in R'.
  change (arg_dry_run (with_verbose b args)) with (arg_dry_run args) in R'.
  change (arg_filter (with_verbose b args)) with (arg_filter args) in R'.
  change (after_connection (with_verbose b args)) with (after_connection args) in R'.
  destruct (opt_truthy (arg_token args)).
  2:{ destruct R as (-> & -> & _), R' as (-> & -> & _). now split. }
  destruct (fst (read_properties env args initial)) as [d|c|e].
  - destruct (Dict.truthy d).
    + destruct (github_get_organization env [] (token_of args) (arg_org args))
        as [o|e].
      * change (connected_setter (with_verbose b args) o)
          with (connected_setter args o) in R'.
        destruct R as (-> & ->), R' as (-> & ->). now split.
      * destruct e; destruct R as (-> & ->), R' as (-> & ->); now split.
    + destruct R as (-> & -> & _), R' as (-> & -> & _). now split.
  - destruct R as (-> & ->), R' as (-> & ->). now split.
  - destruct R as (-> & ->), R' as (-> & ->). now split.
Qed.

(** X10.  A run that gets past the connection, and whose listing
    returns, makes these calls and no other, in this order: the
    connection, the listing and, unless it is a dry run, one update for
    each repository the filter keeps and each item of the property set. *)
Theorem run_trace (env : Env) args d o repos st1 :
  opt_truthy (arg_token args) = true ->
  fst (read_properties env args initial) = Ret d ->
  Dict.truthy d = true ->
  github_get_organization env [] (token_of args) (arg_org args) = Returns o ->
  get_all_repos env (connected_setter args o) (after_connection args)
  = (Ret repos, st1) ->
  calls (snd (run env args))
  = [GetOrganization (token_of args) (arg_org args); GetRepos o]
    ++ (if arg_dry_run args then []
        else map Patch
               (flat_map (requests_for (connected_setter args o) d)
                         (selected (arg_filter args) repos))).
Proof.
  intros T E D G L.
  pose proof (run_cases env args) as R. cbv zeta in R.
  rewrite T, E, D, G in R. destruct R as [_ ->].
  rewrite (driver_calls env _ _ _ _ _ _ _ L). f_equal.
  pose proof (get_all_repos_cases env (connected_setter args o)
                (after_connection args)) as C.
  simpl org in C. cbv iota in C.
  destruct (organization_get_repos env (calls (after_connection args)) o)
    as [l|e]; [|destruct e]; rewrite C in L; try discriminate;
    injection L as _ <-; reflexivity.
Qed.

Lemma run_trace_witness :
  calls (snd (run Sample.world Sample.dry_args))
  = [GetOrganization (token_of Sample.dry_args) (arg_org Sample.dry_args);
     GetRepos Sample.acme]
    ++ (if arg_dry_run Sample.dry_args then []
        else map Patch
               (flat_map (requests_for (connected_setter Sample.dry_args Sample.acme)
                            [("team", "backend")])
                         (selected (arg_filter Sample.dry_args)
                            [Sample.web; Sample.api; Sample.docs]))).
Proof.
  eapply (run_trace Sample.world Sample.dry_args); reflexivity.
Defined.

Lemma contains_trans (a b c : string) :
  PyStr.contains a b = true -> PyStr.contains b c = true ->
  PyStr.contains a c = true.
Proof.
  rewrite !contains_iff. intros (p1 & s1 & ->) (p2 & s2 & ->).
  exists (p1 ++ p2)%string, (s2 ++ s1)%string.
  now rewrite !append_assoc.
Qed.

Lemma filter_filter_implied {A} (p q : A -> bool) (l : list A) :
  (forall x, p x = true -> q x = true) ->
  filter p (filter q l) = filter p l.
Proof.
  intros H. induction l as [|x l IH]; simpl; [reflexivity|].
  destruct (q x) eqn:Q; simpl.
  - now rewrite IH.
  - destruct (p x) eqn:P; [|exact IH]. rewrite (H x P) in Q. discriminate.
Qed.

(** X11.  A longer filter narrows the selection: when the filter [g]
    occurs in the filter [f] up to case, the repositories [f] keeps are
    among those [g] keeps, and filtering by [g] first changes nothing. *)
Theorem longer_filter_narrows (f g : string) (repos : list Repository.t) :
  PyStr.contains (PyStr.lower f) (PyStr.lower g) = true ->
  matching f (matching g repos) = matching f repos
  /\ incl (matching f repos) (matching g repos).
Proof.
  intros H.
  assert (I : forall r : Repository.t,
             PyStr.contains (PyStr.lower (Repository.name r)) (PyStr.lower f) = true ->
             PyStr.contains (PyStr.lower (Repository.name r)) (PyStr.lower g) = true).
  { intros r Hr. exact (contains_trans _ _ _ Hr H). }
  split.
  - unfold matching. now apply filter_filter_implied.
  - intros r. unfold matching. rewrite !filter_In. intros [Hin Hr].
    split; [exact Hin | now apply I].
Qed.

Lemma longer_filter_narrows_witness :
  matching "Frontend" (matching "front" [Sample.web; Sample.api; Sample.docs])
  = matching "Frontend" [Sample.web; Sample.api; Sample.docs]
  /\ incl (matching "Frontend" [Sample.web; Sample.api; Sample.docs])
          (matching "front" [Sample.web; Sample.api; Sample.docs]).
Proof.
  apply (longer_filter_narrows "Frontend" "front"). reflexivity.
Defined.

(** * The placeholder library *)

Lemma append_cancel_l (a b c : string) :
  (a ++ b)%string = (a ++ c)%string -> b = c.
Proof.
  induction a as [|x a IH]; simpl; [auto|]. intros [= H]. now apply IH.
Qed.

Lemma append_char_cancel_r (a b : string) (c : ascii) :
  (a ++ String c "")%string = (b ++ String c "")%string -> a = b.
Proof.
  revert b. induction a as [|x a IH]; intros [|y b]; simpl; intros H.
  - reflexivity.
  - injection H as _ H. destruct b; discriminate.
  - injection H as _ H. destruct a; discriminate.
  - injection H as -> H. now rewrite (IH _ H).
Qed.

(** X12.  The greeting determines the name: two names with the same
    greeting are the same name, and the greeting is 8 characters longer
    than the name. *)
Theorem greeting_determines_name (name name' : string) :
  (Core.example_function name = Core.example_function name' -> name = name')
  /\ String.length (Core.example_function name) = String.length name + 8.
Proof.
  unfold Core.example_function. split.
  - intros H. apply append_cancel_l in H. now apply append_char_cancel_r in H.
  - simpl. do 7 f_equal.
    induction name as [|c name IH]; simpl; [reflexivity | now rewrite IH].
Qed.

Lemma increments_spec (self : Core.ExampleClass) (amounts : list Z) :
  Core.get_value (snd (Core.increments self amounts))
  = (Core.get_value self + fold_right Z.add 0 amounts)%Z
  /\ length (fst (Core.increments self amounts)) = length amounts
  /\ forall i r,
       nth_error (fst (Core.increments self amounts)) i = Some r ->
       r = (Core.get_value self + fold_right Z.add 0 (firstn (S i) amounts))%Z.
Proof.
  revert self. induction amounts as [|a amounts IH]; intros self.
  - simpl. split; [unfold Core.get_value; lia|]. split; [reflexivity|].
    intros [|i] r; discriminate.
  - cbn [Core.increments]. unfold Core.increment. cbv zeta.
    destruct (IH {| Core.value := Core.value self + a |}) as (Hv & Hl & Hn).
    destruct (Core.increments {| Core.value := Core.value self + a |} amounts)
      as [rs self''].
    simpl in *. unfold Core.get_value in *. simpl in *.
    split; [lia|]. split; [simpl; lia|].
    intros [|i] r; simpl.
    + intros [= <-]. destruct amounts; simpl; lia.
    + intros Hr. specialize (Hn i r Hr). lia.
Qed.

(** X13.  After any sequence of calls of [increment], [get_value] gives
    the initial value plus the sum of the amounts, each call has returned
    the running total, and the order of the amounts does not matter for
    the final value; incrementing by an amount and then by its opposite
    restores the value. *)
Theorem increments_add_up (v : Z) (amounts amounts' : list Z) :
  Core.get_value (snd (Core.increments (Core.init v) amounts))
  = (v + fold_right Z.add 0 amounts)%Z
  /\ (forall i r,
         nth_error (fst (Core.increments (Core.init v) amounts)) i = Some r ->
         r = (v + fold_right Z.add 0 (firstn (S i) amounts))%Z)
  /\ (Permutation amounts amounts' ->
      Core.get_value (snd (Core.increments (Core.init v) amounts'))
      = Core.get_value (snd (Core.increments (Core.init v) amounts)))
  /\ (forall a,
         Core.get_value (snd (Core.increments (Core.init v) [a; (- a)%Z])) = v).
Proof.
  destruct (increments_spec (Core.init v) amounts) as (Hv & _ & Hn).
  split; [exact Hv|]. split; [exact Hn|]. split.
  - intros P.
    destruct (increments_spec (Core.init v) amounts') as (Hv' & _).
    rewrite Hv, Hv'. f_equal. clear Hv Hn Hv'.
    induction P; simpl; lia.
  - intros a. simpl. unfold Core.get_value. simpl. lia.
Qed.

Lemma increments_add_up_witness :
  Core.get_value (snd (Core.increments (Core.init 0) [3; 1; 2]%Z))
  = Core.get_value (snd (Core.increments (Core.init 0) [1; 2; 3]%Z)).
Proof.
  apply (proj1 (proj2 (proj2 (increments_add_up 0 [1; 2; 3]%Z [3; 1; 2]%Z)))).
  apply Permutation_sym. change [1; 2; 3]%Z with ([1; 2] ++ [3])%Z.
  apply Permutation_cons_append.
Defined.

Lemma greeting_determines_name_witness : "Python" = "Python".
Proof.
  apply (proj1 (greeting_determines_name "Python" "Python")). reflexivity.
Defined.

(** * The run as a whole, further *)

(** X14.  Without a token, be it absent or empty, the run ends through
    [sys.exit(1)] with the one line that asks for it: the property
    sources are not looked at and nothing is sent. *)
Theorem missing_token_stops_run (env : Env) args :
  opt_truthy (arg_token args) = false ->
  run env args
  = (SysExit 1,
     {| log := [(ERROR, TokenRequired)]; calls := [];
        debug := arg_verbose args |}).
Proof.
  intros T. unfold run, main. apply bind_exit_step. unfold prepare.
  rewrite (bind_ret_step _ _ _ _ _ (verbose_run args initial)).
  rewrite T. simpl negb. cbv iota.
  apply bind_exit_step. unfold logger_error.
  rewrite (bind_ret_step _ _ _ _ _ (emit_run _ _ _)).
  unfold sys_exit, grown. simpl. now rewrite orb_false_r.
Qed.

Lemma missing_token_stops_run_witness :
  run Sample.world
    {| arg_token := Some ""; arg_org := "acme";
       arg_properties := Some ["team"];
       arg_properties_file := Some "missing.json";
       arg_dry_run := false; arg_filter := None; arg_verbose := true |}
  = (SysExit 1,
     {| log := [(ERROR, TokenRequired)]; calls := []; debug := true |}).
Proof.
  apply (missing_token_stops_run Sample.world
           {| arg_token := Some ""; arg_org := "acme";
              arg_properties := Some ["team"];
              arg_properties_file := Some "missing.json";
              arg_dry_run := false; arg_filter := None; arg_verbose := true |}).
  reflexivity.
Defined.

Lemma summary_log args results st :
  summary args results st
  = (ending (Ret results),
     grown st (summary_lines (arg_dry_run args) results) [] (debug st)).
Proof.
  unfold summary, summary_lines, logger_info.
  rewrite (bind_ret_step _ _ _ _ _ (emit_run _ _ _)).
  rewrite (bind_ret_step _ _ _ _ _ (emit_run _ _ _)).
  rewrite (bind_ret_step _ _ _ _ _ (emit_run _ _ _)).
  rewrite !grown_again. simpl app. simpl debug.
  destruct (arg_dry_run args).
  - rewrite (bind_ret_step _ _ _ _ _ (emit_run _ _ _)), grown_again. simpl.
    now destruct (0 <? failed results)%nat.
  - erewrite bind_ret_step.
    2:{ rewrite (bind_ret_step _ _ _ _ _ (emit_run _ _ _)). apply emit_run. }
    rewrite !grown_again. simpl.
    now destruct (0 <? failed results)%nat.
Qed.

(** X15.  The summary reports the counters of the driver: in a run that
    gets past the connection and whose listing returns, the log ends with
    the summary block for the counters the driver returned, the skipped
    count in a dry run and the success and failed counts otherwise. *)
Theorem summary_reports_counters (env : Env) args d o repos st1 :
  opt_truthy (arg_token args) = true ->
  fst (read_properties env args initial) = Ret d ->
  Dict.truthy d = true ->
  github_get_organization env [] (token_of args) (arg_org args) = Returns o ->
  get_all_repos env (connected_setter args o) (after_connection args)
  = (Ret repos, st1) ->
  exists results before,
    fst (set_properties_on_all_repos env (connected_setter args o) d
           (arg_dry_run args) (arg_filter args) (after_connection args))
    = Ret results
    /\ log (snd (run env args))
       = before ++ summary_lines (arg_dry_run args) results.
Proof.
  intros T E D G L.
  destruct (prepare_cases env args initial) as [entries P]. cbv zeta in P.
  rewrite T, E, D in P. change (calls initial) with (@nil NetCall) in P.
  rewrite G in P. fold (connected_setter args o) in P.
  set (st0 := grown initial entries
                [GetOrganization (token_of args) (arg_org args)]
                (arg_verbose args || debug initial)) in *.
  assert (L0 : exists s, get_all_repos env (connected_setter args o) st0
                         = (Ret repos, s)).
  { destruct (log_blind_get_all_repos env (connected_setter args o) st0
                (after_connection args) eq_refl) as [F _].
    rewrite L in F. simpl in F.
    destruct (get_all_repos env (connected_setter args o) st0) as [x s].
    simpl in F. subst x. now exists s. }
  destruct L0 as [s L0].
  destruct (driver_result env _ d (arg_dry_run args) (arg_filter args) _ _ _ L0)
    as (results & st2 & Hrun & _).
  destruct (log_blind_driver env (connected_setter args o) d
              (arg_dry_run args) (arg_filter args) st0
              (after_connection args) eq_refl) as [F _].
  rewrite Hrun in F. simpl in F.
  exists results, (log st2). split; [now rewrite <- F|].
  unfold run, main. rewrite (bind_ret_step _ _ _ _ _ P).
  rewrite (bind_ret_step _ _ _ _ _ Hrun), summary_log. reflexivity.
Qed.

Lemma summary_reports_counters_witness :
  exists results before,
    fst (set_properties_on_all_repos Sample.world
           (connected_setter Sample.args Sample.acme) Sample.properties
           (arg_dry_run Sample.args) (arg_filter Sample.args)
           (after_connection Sample.args))
    = Ret results
    /\ log (snd (run Sample.world Sample.args))
       = before ++ summary_lines (arg_dry_run Sample.args) results.
Proof.
  eapply (summary_reports_counters Sample.world Sample.args Sample.properties
            Sample.acme [Sample.web; Sample.api; Sample.docs]);
    reflexivity.
Defined.

Lemma parse_properties_exit_state props d st c st' :
  parse_properties props d st = (SysExit c, st') ->
  c = 1%Z /\ exists m, st' = grown st [(ERROR, m)] [] (debug st).
Proof.
  revert d. induction props as [|p props IH]; intros d E.
  - discriminate.
  - destruct (parse_properties_step p props d st)
      as [(n & v & _ & _ & Ep) | (m & Ep)]; rewrite Ep in E.
    + now apply (IH _ E).
    + injection E as <- <-. split; [reflexivity | now exists m].
Qed.

Lemma read_properties_exit_state (env : Env) args st c st' :
  read_properties env args st = (SysExit c, st') ->
  c = 1%Z /\ exists m, st' = grown st [(ERROR, m)] [] (debug st).
Proof.
  unfold read_properties.
  assert (F : forall o s,
             (match arg_properties_file args with
              | Some file_path =>
                  if PyStr.truthy file_path
                  then load_properties_from_file env file_path
                  else ret Dict.empty
              | None => ret Dict.empty
              end) st = (o, s) ->
             match o with
             | Ret _ => s = st
             | SysExit c0 =>
                 c0 = 1%Z /\ exists m, s = grown st [(ERROR, m)] [] (debug st)
             | Raise _ => False
             end).
  { intros o s. destruct (arg_properties_file args) as [f|].
    - destruct (PyStr.truthy f).
      + pose proof (load_properties_run env f st) as L.
        destruct (json_file env f); rewrite L; intros [= <- <-];
          [reflexivity | split; [reflexivity | eexists; reflexivity]].
      + now intros [= <- <-].
    - now intros [= <- <-]. }
  unfold bind.
  match goal with |- context [let (_, _) := ?m in _] =>
    destruct m as [[d0|c0|e] s0] end; specialize (F _ _ eq_refl); simpl in F.
  - subst s0. destruct (arg_properties args) as [[|p l]|]; try discriminate.
    apply parse_properties_exit_state.
  - intros [= <- <-]. exact F.
  - contradiction.
Qed.

Lemma in_grown_log st entries more lvl entry :
  In entry (log st) \/ In entry entries ->
  In entry (log (grown st entries more lvl)).
Proof. intros H. simpl. apply in_or_app. exact H. Qed.

(** A preparation that leaves through [sys.exit] leaves with code 1 and
    an error line in the log. *)
Lemma prepare_exit_logged (env : Env) args st c st' :
  prepare env args st = (SysExit c, st') ->
  c = 1%Z /\ exists m, In (ERROR, m) (log st').
Proof.
  unfold prepare.
  rewrite (bind_ret_step _ _ _ _ _ (verbose_run args st)).
  destruct (opt_truthy (arg_token args)); simpl negb; cbv iota.
  2:{ unfold bind, logger_error. rewrite emit_run. unfold sys_exit.
      intros [= <- <-]. split; [reflexivity|]. eexists.
      apply in_grown_log. right. now left. }
  rewrite (bind_ret_step _ _ _ tt _ eq_refl).
  destruct (read_properties env args
              (grown st [] [] (arg_verbose args || debug st)))
    as [[d|c0|e] s0] eqn:R.
  - rewrite (bind_ret_step _ _ _ _ _ R).
    destruct (Dict.truthy d); simpl negb; cbv iota.
    2:{ unfold bind, logger_error. rewrite emit_run. unfold sys_exit.
        intros [= <- <-]. split; [reflexivity|]. eexists.
        apply in_grown_log. right. now left. }
    rewrite (bind_ret_step _ _ _ tt _ eq_refl). unfold logger_info.
    rewrite (bind_ret_step _ _ _ _ _ (emit_run _ _ _)).
    match goal with |- context [validate_connection env ?s] =>
      match goal with |- context [bind (validate_connection env s) _ ?t] =>
        pose proof (validate_connection_cases env s t) as V end end.
    cbv zeta in V.
    match type of V with match ?g with _ => _ end => destruct g as [o|e] end.
    + rewrite (bind_ret_step _ _ _ _ _ V). simpl negb. cbv iota.
      rewrite (bind_ret_step _ _ _ tt _ eq_refl). discriminate.
    + destruct e;
        [ rewrite (bind_ret_step _ _ _ _ _ V); simpl negb; cbv iota;
          unfold bind, sys_exit; intros [= <- <-]; split; [reflexivity|];
          eexists; apply in_grown_log; right; now left
        | rewrite (bind_raise_step _ _ _ _ _ V); discriminate .. ].
  - rewrite (bind_exit_step _ _ _ _ _ R). intros [= <- <-].
    destruct (read_properties_exit_state env args _ _ _ R) as (-> & m & ->).
    split; [reflexivity|]. exists m. apply in_grown_log. right. now left.
  - rewrite (bind_raise_step _ _ _ _ _ R). discriminate.
Qed.

Lemma exists_error (l : list (Level * Message)) :
  forallb is_info l = false -> exists m, In (ERROR, m) l.
Proof.
  induction l as [|[[|] m] l IH]; simpl; [discriminate | |].
  - intros H. destruct (IH H) as [m' Hm]. exists m'. now right.
  - intros _. exists m. now left.
Qed.

(** A driver that returns a failed repository has logged an error. *)
Lemma driver_failure_logged (env : Env) self d dry_run repo_filter st results st2 :
  set_properties_on_all_repos env self d dry_run repo_filter st
  = (Ret results, st2) ->
  0 < failed results ->
  exists m, In (ERROR, m) (log st2).
Proof.
  intros Hrun Hf.
  destruct (get_all_repos env self st) as [[repos|c|e] st1] eqn:L.
  - rewrite (driver_after_listing_notices env _ _ _ _ _ _ _ L) in Hrun.
    destruct dry_run.
    + rewrite for_repos_dry_log in Hrun. injection Hrun as <- _.
      simpl in Hf. lia.
    + match type of Hrun with for_repos env self d false ?l ?r ?s = _ =>
        destruct (for_repos_real_entries env self d l r s)
          as (added & E & Hi & _) end.
      rewrite E in Hrun.
      match type of Hi with _ = forallb _ ?outs =>
        assert (Hc : failed results = count false outs)
          by (injection Hrun as <- _; reflexivity) end.
      injection Hrun as _ <-.
      destruct (forallb is_info added) eqn:A.
      * symmetry in Hi. apply count_false_zero in Hi. rewrite Hc, Hi in Hf. lia.
      * destruct (exists_error _ A) as [m Hm]. exists m.
        apply in_grown_log. now right.
  - now elim (get_all_repos_no_exit env self st c st1).
  - rewrite (driver_listing_raises env self d dry_run repo_filter _ _ _ L) in Hrun.
    discriminate.
Qed.

(** X16.  The script never leaves through [sys.exit] in silence: a run
    that ends through [sys.exit] ends with code 1 and has an error line
    in its log. *)
Theorem exit_is_logged (env : Env) args c :
  fst (run env args) = SysExit c ->
  c = 1%Z /\ exists m, In (ERROR, m) (log (snd (run env args))).
Proof.
  unfold run, main.
  destruct (prepare env args initial) as [[[setter d]|c0|e] st1] eqn:P.
  - rewrite (bind_ret_step _ _ _ _ _ P).
    destruct (set_properties_on_all_repos env setter d (arg_dry_run args)
                (arg_filter args) st1) as [[results|c1|e] st2] eqn:D.
    + rewrite (bind_ret_step _ _ _ _ _ D), summary_log. simpl.
      destruct (0 <? failed results)%nat eqn:F; [|discriminate].
      intros [= <-]. split; [reflexivity|].
      apply Nat.ltb_lt in F.
      destruct (driver_failure_logged env _ _ _ _ _ _ _ D F) as [m Hm].
      exists m. apply in_or_app. now left.
    + exfalso. apply (driver_no_exit env setter d (arg_dry_run args)
                        (arg_filter args) st1 c1). now rewrite D.
    + rewrite (bind_raise_step _ _ _ _ _ D). discriminate.
  - rewrite (bind_exit_step _ _ _ _ _ P). simpl. intros [= <-].
    now apply (prepare_exit_logged env args initial).
  - rewrite (bind_raise_step _ _ _ _ _ P). discriminate.
Qed.

Lemma exit_is_logged_witness :
  1%Z = 1%Z
  /\ exists m, In (ERROR, m) (log (snd (run Sample.world Sample.args))).
Proof.
  apply (exit_is_logged Sample.world Sample.args 1). reflexivity.
Defined.
